(** * src-tree: scaffolding of layered C header/source trees

    A shallow embedding of the two generator programs of the repository,
    [src/main.go] (the prefix-aware generator, module [Main]) and
    [src/unnamed/part_000] (the fixed ten-file generator, module [Part000]),
    over an explicit model of the part of the operating system they talk to:
    a table of files, exclusive or truncating creation, sequential writes
    that may fail half-way, and removal, which may fail unnoticed.

    Go strings are byte sequences; they are modelled by [string], whose
    characters are the 256 values of [ascii]. *)

From Stdlib Require Import ZArith NArith Ascii String List Lia.
From stdpp Require Import gmap strings list fin_maps.

Local Open Scope Z_scope.

(** ** Bytes and strings *)

(** The two bytes that cannot be written inside a string literal. *)
Definition nl : string := String "010"%char "".
Definition dq : string := String "034"%char "".

Definition byte_val (b : ascii) : N := N_of_ascii b.

Definition in_range (lo hi b : ascii) : bool :=
  ((byte_val lo <=? byte_val b) && (byte_val b <=? byte_val hi))%N.

Definition is_digit (b : ascii) : bool := in_range "0" "9" b.
Definition is_upper (b : ascii) : bool := in_range "A" "Z" b.
Definition is_lower (b : ascii) : bool := in_range "a" "z" b.

(** [len(s)] of Go: the number of bytes. *)
Definition len (s : string) : nat := String.length s.

Definition bytes (s : string) : list ascii := list_ascii_of_string s.

(** [strings.ToLower] on a string of ASCII bytes: the letters A to Z are
    lower-cased and every other byte is kept. Go also maps letters outside
    ASCII; the statements below that depend on which letters are mapped are
    made for names of ASCII bytes, and the other statements speak of the
    path that [createFile] resolves for a name, whatever that path is. *)
Definition lower_byte (b : ascii) : ascii :=
  if is_upper b then ascii_of_N (byte_val b + 32) else b.

Fixpoint ToLower (s : string) : string :=
  match s with
  | EmptyString => EmptyString
  | String b s' => String (lower_byte b) (ToLower s')
  end.

(** [filepath.Base] on a slash-separated path: trailing slashes are
    stripped, the last element is kept; the empty path gives ".", a path of
    slashes only gives "/". *)
Definition is_sep (b : ascii) : bool := if ascii_dec b "/" then true else false.

Fixpoint strip_slashes (s : string) : string :=
  match s with
  | EmptyString => EmptyString
  | String b s' =>
      match strip_slashes s' with
      | EmptyString => if is_sep b then EmptyString else String b EmptyString
      | r => String b r
      end
  end.

Fixpoint has_sep (s : string) : bool :=
  match s with
  | EmptyString => false
  | String b s' => is_sep b || has_sep s'
  end.

Fixpoint last_element (s : string) : string :=
  match s with
  | EmptyString => EmptyString
  | String b s' =>
      if has_sep s' then last_element s'
      else if is_sep b then s' else String b s'
  end.

Definition Base (path : string) : string :=
  match path with
  | EmptyString => "."
  | _ =>
      match last_element (strip_slashes path) with
      | EmptyString => "/"
      | e => e
      end
  end.

(** ** The operating system *)

Inductive error : Set :=
  | EEXIST   (* the file exists (O_CREATE with O_EXCL) *)
  | ENOENT   (* no such file, and O_CREATE is not set *)
  | EACCES   (* the path cannot be opened or created *)
  | EIO      (* a write failed *)
  | ENOWD.   (* the working directory cannot be read *)

Inductive result (A : Type) : Type :=
  | Ok (a : A)
  | Err (e : error).
Arguments Ok {A} a.
Arguments Err {A} e.

(** The world of one run.
    - [files]: the regular files, by absolute path, with their content;
    - [refused]: the paths at which opening is refused whatever is there (a
      file that may not be written, a directory that is missing or may not
      be searched);
    - [stuck]: the paths whose directory entry the process cannot change
      (the directory may not be written): no file is created there and none
      is removed;
    - [wfaults]: what happens to the coming writes, one entry per call of
      [Write]: [None] for a write that succeeds, [Some k] for one that fails
      after at most [k] bytes; when the list is used up, writes succeed;
    - [wd]: the answer of [os.Getwd];
    - [abs]: the answer of [filepath.Abs], which resolves a name against the
      working directory of the process (the programs never change it). *)
Record world : Type := World {
  files : gmap string string;
  refused : string -> bool;
  stuck : string -> bool;
  wfaults : list (option nat);
  wd : option string;
  abs : string -> option string
}.

Definition set_files (f : gmap string string -> gmap string string)
    (w : world) : world :=
  {| files := f (files w); refused := refused w; stuck := stuck w;
     wfaults := wfaults w; wd := wd w; abs := abs w |}.

Definition set_wfaults (l : list (option nat)) (w : world) : world :=
  {| files := files w; refused := refused w; stuck := stuck w;
     wfaults := l; wd := wd w; abs := abs w |}.

(** Opening or creating at [fn] is refused: the path is refused, or there
    is no file and none can be created. *)
Definition denied (w : world) (fn : string) : bool :=
  refused w fn || (stuck w fn && bool_decide (files w !! fn = None)).

(** The flags of [os.OpenFile] the programs use, with their Linux values. *)
Definition O_WRONLY : Z := 1.
Definition O_RDWR   : Z := 2.
Definition O_CREATE : Z := 64.
Definition O_EXCL   : Z := 128.
Definition O_TRUNC  : Z := 512.

Definition has_flag (flag bit : Z) : bool := negb (Z.land flag bit =? 0).

(** An open file is identified by its path: nothing renames a file during a
    run, and both programs open with O_TRUNC, so the position of a handle is
    always the end of the file. *)
Definition handle : Type := string.

(** A computation on the world that returns a value or an error. *)
Definition io (A : Type) : Type := world -> result A * world.

Definition ret {A} (a : A) : io A := fun w => (Ok a, w).

Definition bind {A B} (c : io A) (k : A -> io B) : io B :=
  fun w =>
    match c w with
    | (Ok a, w') => k a w'
    | (Err e, w') => (Err e, w')
    end.

Notation "x <- c ;; k" := (bind c (fun x => k))
  (at level 100, c at next level, right associativity).
Notation "c ;; k" := (bind c (fun _ => k))
  (at level 100, right associativity).

(** [os.OpenFile(fn, flag, perm)]. An existing file opened with
    O_CREATE|O_EXCL gives EEXIST; otherwise the file is created when it is
    missing and O_CREATE is set, and emptied when O_TRUNC is set. The
    permission bits [perm] of a created file are not part of the world. *)
Definition OpenFile (fn : string) (flag : Z) (perm : Z) : io handle :=
  fun w =>
    match files w !! fn with
    | Some _ =>
        if has_flag flag O_CREATE && has_flag flag O_EXCL then (Err EEXIST, w)
        else if denied w fn then (Err EACCES, w)
        else if has_flag flag O_TRUNC
             then (Ok fn, set_files (insert fn EmptyString) w)
             else (Ok fn, w)
    | None =>
        if negb (has_flag flag O_CREATE) then (Err ENOENT, w)
        else if denied w fn then (Err EACCES, w)
        else (Ok fn, set_files (insert fn EmptyString) w)
    end.

(** The first [k] bytes of [s]. *)
Definition prefix_of (k : nat) (s : string) : string := String.substring 0 k s.

(** [w.Write(data)]: one call appends [data]; a failing call appends a
    prefix of it and returns an error. *)
Definition Write (h : handle) (data : string) : io unit :=
  fun w =>
    match wfaults w with
    | Some k :: rest =>
        (Err EIO,
         set_wfaults rest
           (set_files (alter (fun c => c +:+ prefix_of k data) h) w))
    | None :: rest =>
        (Ok tt, set_wfaults rest (set_files (alter (fun c => c +:+ data) h) w))
    | [] => (Ok tt, set_files (alter (fun c => c +:+ data) h) w)
    end.

(** [w.Close()]: the result is ignored by the programs. *)
Definition Close (h : handle) (w : world) : world := w.

(** [os.Remove(fn)]: the file is removed unless its directory entry cannot
    be changed; the programs ignore the result, so a removal that fails
    leaves the file and is not noticed. *)
Definition Remove (fn : string) (w : world) : world :=
  if stuck w fn then w else set_files (delete fn) w.

(** [filepath.Abs]. *)
Definition Abs (p : string) : io string :=
  fun w =>
    match abs w p with
    | Some fn => (Ok fn, w)
    | None => (Err ENOWD, w)
    end.

(** ** The file writer, as both programs have it

    [includeName], [defName], [writeHeader], [writeFooter], [writeInclude],
    [createFile], [createNamedInc] and [createNamedSrc] are the same text in
    [src/main.go] and in [src/unnamed/part_000], up to the constant
    [fileCreate] and the [switch] of [defName]. They are written once, over
    these two and over the two package variables they read, [name] and
    [once]. *)
Module Writer.
Section Variant.

Variable fileCreate : Z.
Variable defByte : ascii -> ascii.
Variable name : string.
Variable once : bool.

Definition fileMode : Z := 420. (* 0644 *)

Definition includeName (iname : string) : string :=
  if (len name =? 0)%nat then iname else name +:+ "/" +:+ iname.

(** The [for _, b := range []byte(n)] loop of [defName]: [r] is the
    buffer, one byte is appended for every byte of [n]. *)
Fixpoint defName_loop (r n : string) : string :=
  match n with
  | EmptyString => r
  | String b n' => defName_loop (r +:+ String (defByte b) EmptyString) n'
  end.

Definition defName (iname : string) : string :=
  let n := includeName iname in
  let r := "__" in
  let r := defName_loop r n in
  r +:+ "__".

Definition writeHeader (w : handle) (iname : string) : io unit :=
  (if once then Write w ("#pragma once" +:+ nl +:+ nl) else ret tt) ;;
  let def := defName iname in
  Write w ("#ifndef " +:+ def +:+ nl +:+ "#define " +:+ def +:+ nl +:+ nl).

Definition writeFooter (w : handle) (iname : string) : io unit :=
  Write w ("#endif //" +:+ defName iname +:+ nl).

Definition writeInclude (w : handle) (iname : string) : io unit :=
  Write w ("#include " +:+ dq +:+ includeName iname +:+ dq +:+ nl).

Definition createFile (fname : string) : io (handle * string) :=
  fn <- Abs (ToLower fname) ;;
  fd <- OpenFile fn fileCreate fileMode ;;
  ret (fd, fn).

(** [for _, incName := range inc { writeInclude ... }], which returns at
    the first error. *)
Fixpoint writeIncludes (w : handle) (inc : list string) : io unit :=
  match inc with
  | [] => ret tt
  | incName :: rest => writeInclude w incName ;; writeIncludes w rest
  end.

(** The deferred function of [createNamedInc] and [createNamedSrc]: the
    file is closed, and removed when the body returned an error. *)
Definition deferred (w : handle) (fn : string) (body : io unit) : io unit :=
  fun s =>
    match body s with
    | (Ok u, s') => (Ok u, Close w s')
    | (Err e, s') => (Err e, Remove fn (Close w s'))
    end.

Definition createNamedInc (iname : string) (inc : list string) : io unit :=
  fun s =>
    match createFile iname s with
    | (Err e, s') => (Err e, s')
    | (Ok (w, fn), s') =>
        deferred w fn
          (writeHeader w iname ;;
           writeIncludes w inc ;;
           (if (0 <? length inc)%nat then Write w nl else ret tt) ;;
           writeFooter w iname) s'
    end.

Definition createNamedSrc (sname : string) (inc : list string) : io unit :=
  fun s =>
    match createFile sname s with
    | (Err e, s') => (Err e, s')
    | (Ok (w, fn), s') => deferred w fn (writeIncludes w inc) s'
    end.

End Variant.
End Writer.

(** ** The command line

    What [flag.Parse] found on a command line that it accepted: a flag that
    was not given is [None] ([flag.Visit] visits the flags that were given,
    whatever their value). [flag.Parse] ends the process itself, before
    anything is created, on a flag that the program does not define, on a
    value that cannot be read and on -h: [checkFlags] and [main] below start
    where [flag.Parse] has returned. *)
Record flags : Type := Flags {
  f_name : option string;
  f_dir : option bool;
  f_once : option bool;
  f_pub : option bool;
  f_add : option string
}.

(** The ways [checkFlags] ends the process (with status 1) after
    [flag.Parse] has returned. *)
Inductive config_error : Set :=
  | Incompatible   (* -name and -dir together *)
  | EmptyPrefix    (* -add with an empty argument *)
  | NoWorkingDir.  (* os.Getwd failed *)

(** ** src/main.go *)
Module Main.

Definition fileCreate : Z :=
  Z.lor (Z.lor (Z.lor O_WRONLY O_CREATE) O_EXCL) O_TRUNC.
Definition byteUp : N := byte_val "a" - byte_val "A".

Definition sConsts : string := "_consts.h".
Definition sTypes : string := "_types.h".
Definition sInlines : string := "_inlines.h".
Definition pPub : string := "pub".
Definition pPriv : string := "priv".

(** The package variables. *)
Record globals : Type := Globals {
  name : string;
  useDir : bool;
  once : bool;
  pub : bool;
  pfx : string;
  isNameSet : bool;
  isDirSet : bool;
  isPfxSet : bool
}.

Definition set_pfx (p : string) (g : globals) : globals :=
  {| name := name g; useDir := useDir g; once := once g; pub := pub g;
     pfx := p; isNameSet := isNameSet g; isDirSet := isDirSet g;
     isPfxSet := isPfxSet g |}.

Definition set_name (n : string) (g : globals) : globals :=
  {| name := n; useDir := useDir g; once := once g; pub := pub g;
     pfx := pfx g; isNameSet := isNameSet g; isDirSet := isDirSet g;
     isPfxSet := isPfxSet g |}.

(** The variables after [flag.Parse] and [flag.Visit]. *)
Definition parsed (fl : flags) : globals :=
  {| name := default "" (f_name fl);
     useDir := default false (f_dir fl);
     once := default false (f_once fl);
     pub := default false (f_pub fl);
     pfx := default "" (f_add fl);
     isNameSet := bool_decide (is_Some (f_name fl));
     isDirSet := bool_decide (is_Some (f_dir fl));
     isPfxSet := bool_decide (is_Some (f_add fl)) |}.

(** [checkFlags], from the return of [flag.Parse] on. *)
Definition checkFlags (fl : flags) (w : world) : config_error + globals :=
  let g := parsed fl in
  if isNameSet g && isDirSet g then inl Incompatible
  else if isPfxSet g && (len (pfx g) =? 0)%nat then inl EmptyPrefix
  else
    let g := if isPfxSet g then g else set_pfx pPub g in
    if negb (isDirSet g) then inr g
    else
      match wd w with
      | None => inl NoWorkingDir
      | Some path => inr (set_name (Base path) g)
      end.

Definition fName (g : globals) (suf : string) : string := pfx g +:+ suf.

(** The [switch] of [defName]. *)
Definition defByte (b : ascii) : ascii :=
  if ((byte_val "0" <=? byte_val b) && (byte_val b <=? byte_val "9"))%N
  then b
  else if ((byte_val "A" <=? byte_val b) && (byte_val b <=? byte_val "Z"))%N
  then b
  else if ((byte_val "a" <=? byte_val b) && (byte_val b <=? byte_val "z"))%N
  then ascii_of_N (byte_val b - byteUp)
  else "_"%char.

Definition includeName (g : globals) : string -> string :=
  Writer.includeName (name g).
Definition defName (g : globals) : string -> string :=
  Writer.defName defByte (name g).
Definition createFile : string -> io (handle * string) :=
  Writer.createFile fileCreate.
Definition createNamedInc (g : globals) : string -> list string -> io unit :=
  Writer.createNamedInc fileCreate defByte (name g) (once g).
Definition createNamedSrc (g : globals) : string -> list string -> io unit :=
  Writer.createNamedSrc fileCreate (name g).

Definition createIncs (g : globals) (first : bool) : io unit :=
  (if first then createNamedInc g (fName g sConsts) []
   else createNamedInc g (fName g sConsts) [pPub +:+ sInlines]) ;;
  createNamedInc g (fName g sTypes) [fName g sConsts] ;;
  createNamedInc g (fName g sInlines) [fName g sTypes].

(** [main] after [checkFlags]; an error is what [logErr] receives. *)
Definition generate (g : globals) : io unit :=
  createIncs g true ;;
  if isPfxSet g then
    createNamedInc g (pfx g +:+ ".h") [fName g sInlines] ;;
    createNamedSrc g (pfx g +:+ ".c") [pfx g +:+ ".h"]
  else
    (if (0 <? len (name g))%nat
     then createNamedInc g (name g +:+ ".h") [fName g sInlines]
     else ret tt) ;;
    if pub g then ret tt
    else
      let g := set_pfx pPriv g in
      createIncs g false ;;
      if (0 <? len (name g))%nat
      then createNamedSrc g (name g +:+ ".c") [fName g sInlines]
      else ret tt.

(** The whole process: its exit status and the world it leaves. *)
Definition main (fl : flags) (w : world) : Z * world :=
  match checkFlags fl w with
  | inl _ => (1, w)
  | inr g =>
      match generate g w with
      | (Ok _, w') => (0, w')
      | (Err _, w') => (1, w')
      end
  end.

End Main.

(** ** src/unnamed/part_000 *)
Module Part000.

Definition fileCreate : Z := Z.lor (Z.lor O_RDWR O_CREATE) O_TRUNC.
Definition byteUp : N := byte_val "a" - byte_val "A".

Definition pubConsts : string := "pub_consts.h".
Definition pubTypes : string := "pub_types.h".
Definition pubInlines : string := "pub_inlines.h".
Definition pubIncludes : string := "pub_includes.h".
Definition privConsts : string := "priv_consts.h".
Definition privTypes : string := "priv_types.h".
Definition privInlines : string := "priv_inlines.h".
Definition privIncludes : string := "priv_includes.h".

Record globals : Type := Globals {
  name : string;
  useDir : bool;
  once : bool;
  isNameSet : bool;
  isDirSet : bool
}.

Definition set_name (n : string) (g : globals) : globals :=
  {| name := n; useDir := useDir g; once := once g;
     isNameSet := isNameSet g; isDirSet := isDirSet g |}.

(** The variables after [flag.Parse] and [flag.Visit]; this program has
    the flags -name, -dir and -once only. *)
Definition parsed (fl : flags) : globals :=
  {| name := default "" (f_name fl);
     useDir := default false (f_dir fl);
     once := default false (f_once fl);
     isNameSet := bool_decide (is_Some (f_name fl));
     isDirSet := bool_decide (is_Some (f_dir fl)) |}.

(** [checkFlags], from the return of [flag.Parse] on. *)
Definition checkFlags (fl : flags) (w : world) : config_error + globals :=
  let g := parsed fl in
  if isNameSet g && isDirSet g then inl Incompatible
  else if negb (isDirSet g) then inr g
  else
    match wd w with
    | None => inl NoWorkingDir
    | Some path => inr (set_name (Base path) g)
    end.

(** The [switch] of [defName]. *)
Definition defByte (b : ascii) : ascii :=
  if ((byte_val "A" <=? byte_val b) && (byte_val b <=? byte_val "Z"))%N
  then b
  else if ((byte_val "a" <=? byte_val b) && (byte_val b <=? byte_val "z"))%N
  then ascii_of_N (byte_val b - byteUp)
  else "_"%char.

Definition includeName (g : globals) : string -> string :=
  Writer.includeName (name g).
Definition defName (g : globals) : string -> string :=
  Writer.defName defByte (name g).
Definition createFile : string -> io (handle * string) :=
  Writer.createFile fileCreate.
Definition createNamedInc (g : globals) : string -> list string -> io unit :=
  Writer.createNamedInc fileCreate defByte (name g) (once g).
Definition createNamedSrc (g : globals) : string -> list string -> io unit :=
  Writer.createNamedSrc fileCreate (name g).

Definition generate (g : globals) : io unit :=
  createNamedInc g pubConsts [] ;;
  createNamedInc g pubTypes [pubConsts] ;;
  createNamedInc g pubInlines [pubTypes] ;;
  createNamedInc g pubIncludes [pubInlines] ;;
  createNamedInc g privConsts [pubIncludes] ;;
  createNamedInc g privTypes [privConsts] ;;
  createNamedInc g privInlines [privTypes] ;;
  createNamedInc g privIncludes [privInlines] ;;
  if (len (name g) =? 0)%nat then ret tt
  else
    createNamedInc g (name g +:+ ".h") [pubIncludes] ;;
    createNamedSrc g (name g +:+ ".c") [privIncludes].

Definition main (fl : flags) (w : world) : Z * world :=
  match checkFlags fl w with
  | inl _ => (1, w)
  | inr g =>
      match generate g w with
      | (Ok _, w') => (0, w')
      | (Err _, w') => (1, w')
      end
  end.

End Part000.

(** ** A directory

    The world of a process whose working directory is [cwd], given as a
    clean absolute path, whose files are [fs], where nothing is refused,
    every file can be removed and no write fails. [in_dir cwd name] is what
    [filepath.Abs] gives for a plain file name (no separator, not a dot
    element): the name joined to [cwd] with one separator. It serves for
    the runs whose files have fixed names; what is stated for any name is
    stated for any world, of the path that [createFile] resolves. *)
Fixpoint ends_with_sep (s : string) : bool :=
  match s with
  | EmptyString => false
  | String b EmptyString => is_sep b
  | String _ s' => ends_with_sep s'
  end.

Definition in_dir (cwd : string) (p : string) : string :=
  if ends_with_sep cwd then cwd +:+ p else cwd +:+ "/" +:+ p.

Definition dir_world (cwd : string) (fs : gmap string string) : world :=
  {| files := fs; refused := fun _ => false; stuck := fun _ => false;
     wfaults := []; wd := Some cwd; abs := fun p => Some (in_dir cwd p) |}.

Definition no_flags : flags :=
  {| f_name := None; f_dir := None; f_once := None; f_pub := None;
     f_add := None |}.

(** ** The texts of the generated files *)

Fixpoint string_map (f : ascii -> ascii) (s : string) : string :=
  match s with
  | EmptyString => EmptyString
  | String b s' => String (f b) (string_map f s')
  end.

(** A text given by its lines, each ended by a newline. *)
Fixpoint unlines (ls : list string) : string :=
  match ls with
  | [] => EmptyString
  | l :: rest => l +:+ nl +:+ unlines rest
  end.

(** The directive [#include "path"], without its newline. *)
Definition include_directive (path : string) : string :=
  "#include " +:+ dq +:+ path +:+ dq.

(** The lines of an include file with guard token [guard] that includes
    the paths [incs]: the pragma and a blank line in once-guard mode, the
    guard's two lines, a blank line, one directive for every path, a blank
    line when there is a directive, the closing line of the guard. *)
Definition guarded_lines (once : bool) (guard : string) (incs : list string)
    : list string :=
  (if once then ["#pragma once"; ""] else []) ++
  ["#ifndef " +:+ guard; "#define " +:+ guard; ""] ++
  (include_directive <$> incs) ++
  (match incs with [] => [] | _ :: _ => [""] end) ++
  ["#endif //" +:+ guard].

(** The lines of a source file: the directives and nothing else. *)
Definition source_lines (incs : list string) : list string :=
  include_directive <$> incs.

(** The guard token of a qualified include path under a byte rule. *)
Definition guard_of (rule : ascii -> ascii) (path : string) : string :=
  "__" +:+ string_map rule path +:+ "__".

(** The two byte rules, as the specification words them. *)
Definition upper_case (b : ascii) : ascii := ascii_of_N (byte_val b - 32).

Definition rule_digits_kept (b : ascii) : ascii :=
  if is_digit b || is_upper b then b
  else if is_lower b then upper_case b
  else "_"%char.

Definition rule_digits_replaced (b : ascii) : ascii :=
  if is_upper b then b
  else if is_lower b then upper_case b
  else "_"%char.

(** The number of underscores a token starts with, and ends with. *)
Fixpoint leading_underscores (l : list ascii) : nat :=
  match l with
  | b :: l' => if ascii_dec b "_" then S (leading_underscores l') else 0%nat
  | [] => 0%nat
  end.

Definition leading (s : string) : nat := leading_underscores (bytes s).
Definition trailing (s : string) : nat := leading_underscores (rev (bytes s)).

(** The first byte of a string is a letter or a digit / is a letter. *)
Definition starts_alnum (s : string) : bool :=
  match s with
  | String b _ => is_digit b || is_upper b || is_lower b
  | EmptyString => false
  end.

Definition starts_letter (s : string) : bool :=
  match s with
  | String b _ => is_upper b || is_lower b
  | EmptyString => false
  end.

(** The environment of a run, which no operation changes. *)
Definition same_env (w w' : world) : Prop :=
  refused w' = refused w /\ stuck w' = stuck w /\ wd w' = wd w /\
  abs w' = abs w.

(** [d] is the beginning of [t]. *)
Definition is_prefix (d t : string) : Prop := exists r, t = d +:+ r.

(** [m] only appends to the file of handle [h]: whatever the faults, the
    file grows by a beginning of [text] and the rest of the world stays;
    when [m] succeeds the file has grown by [text]; [m] fails with a write
    error only, and succeeds when no fault is left. *)
Definition appends (h : handle) (text : string) (m : io unit) : Prop :=
  forall w,
    same_env w (m w).2 /\
    (exists d, files (m w).2 = alter (fun c => c +:+ d) h (files w) /\
               is_prefix d text /\
               ((m w).1 = Ok tt -> d = text)) /\
    ((m w).1 = Ok tt \/ (m w).1 = Err EIO) /\
    (wfaults w = [] -> (m w).1 = Ok tt /\ wfaults (m w).2 = []).

(** One of the coming [n] writes fails. *)
Fixpoint fails_within (n : nat) (l : list (option nat)) : bool :=
  match n, l with
  | S n', Some _ :: _ => true
  | S n', None :: rest => fails_within n' rest
  | _, _ => false
  end.

(** [m] calls [Write] [n] times, one call after the other, and stops at the
    first call that fails: it returns the write error exactly when one of
    the coming [n] writes fails. *)
Definition writes (n : nat) (m : io unit) : Prop :=
  forall w,
    (m w).1 = (if fails_within n (wfaults w) then Err EIO else Ok tt) /\
    ((m w).1 = Ok tt -> wfaults (m w).2 = drop n (wfaults w)).

(** The number of calls of [Write] in the body of [createNamedInc] (the
    pragma, the guard, one per dependency, the blank line, the closing
    line) and of [createNamedSrc] (one per dependency). *)
Definition inc_writes (once : bool) (inc : list string) : nat :=
  ((if once then 1 else 0) + 1 + length inc +
   (if (0 <? length inc)%nat then 1 else 0) + 1)%nat.

Definition src_writes (inc : list string) : nat := length inc.

(** The common shape of [createNamedInc] and [createNamedSrc]. *)
Definition create_then (fileCreate : Z) (fname : string)
    (body : handle -> io unit) : io unit :=
  fun s =>
    match Writer.createFile fileCreate fname s with
    | (Err e, s') => (Err e, s')
    | (Ok (w, fn), s') => Writer.deferred w fn (body w) s'
    end.

(** The flag sets of both programs create a missing file and empty the
    file they open. *)
Definition creating (fileCreate : Z) : Prop :=
  has_flag fileCreate O_CREATE = true /\ has_flag fileCreate O_TRUNC = true.

Definition exclusive (fileCreate : Z) : bool := has_flag fileCreate O_EXCL.

(** The text of the include file [iname] with the dependencies [inc], and
    of a source file with the dependencies [inc], for the module [name]. *)
Definition inc_text (rule : ascii -> ascii) (name : string) (once : bool)
    (iname : string) (inc : list string) : string :=
  unlines (guarded_lines once (guard_of rule (Writer.includeName name iname))
             (Writer.includeName name <$> inc)).

Definition src_text (name : string) (inc : list string) : string :=
  unlines (source_lines (Writer.includeName name <$> inc)).

(** The content, in the world [w], of the file that [createFile fname]
    resolves to. *)
Definition read_file (w : world) (fname : string) : option string :=
  match abs w (ToLower fname) with
  | Some fn => files w !! fn
  | None => None
  end.

(** [m] leaves every file it finds as it is. *)
Definition preserves {A} (m : io A) : Prop :=
  forall w, files w ⊆ files (m w).2 /\ same_env w (m w).2.

(** ** Runs used as examples *)

(** A directory where [pub_consts.h] exists already. *)
Definition w_taken : world :=
  dir_world "/w" {[ "/w/pub_consts.h" := "keep" ]}.

(** An empty directory whose disk accepts one write and fails the next
    after three bytes. *)
Definition w_disk_full : world :=
  {| files := ∅; refused := fun _ => false; stuck := fun _ => false;
     wfaults := [None; Some 3%nat];
     wd := Some "/w"; abs := fun p => Some (in_dir "/w" p) |}.

Definition g_plain : Main.globals :=
  {| Main.name := ""; Main.useDir := false; Main.once := false;
     Main.pub := false; Main.pfx := "pub"; Main.isNameSet := false;
     Main.isDirSet := false; Main.isPfxSet := false |}.

Definition g_foo_once : Main.globals :=
  {| Main.name := "foo"; Main.useDir := false; Main.once := true;
     Main.pub := false; Main.pfx := "pub"; Main.isNameSet := true;
     Main.isDirSet := false; Main.isPfxSet := false |}.

Definition g_foo : Main.globals :=
  {| Main.name := "foo"; Main.useDir := false; Main.once := false;
     Main.pub := false; Main.pfx := "pub"; Main.isNameSet := true;
     Main.isDirSet := false; Main.isPfxSet := false |}.

(** The module name [_x], as -name=_x or a directory [_x] with -dir gives. *)
Definition g_underscore : Main.globals :=
  {| Main.name := "_x"; Main.useDir := false; Main.once := false;
     Main.pub := false; Main.pfx := "pub"; Main.isNameSet := true;
     Main.isDirSet := false; Main.isPfxSet := false |}.

(** ** The plan of a run

    The files a run creates, in order: for each its kind, its name and the
    names it includes. [main_plan] follows the control flow of [main] in
    [src/main.go]; [generate_plan] below shows that running the plan is
    what [main] does. *)
Inductive kind : Set := Include | Source.

Record file_spec : Type := FileSpec {
  fs_kind : kind;
  fs_name : string;
  fs_deps : list string
}.

Section Plans.

Variable fileCreate : Z.
Variable defByte : ascii -> ascii.
Variable name : string.
Variable once : bool.

Definition create (f : file_spec) : io unit :=
  match fs_kind f with
  | Include =>
      Writer.createNamedInc fileCreate defByte name once (fs_name f) (fs_deps f)
  | Source => Writer.createNamedSrc fileCreate name (fs_name f) (fs_deps f)
  end.

Fixpoint run_plan (steps : list file_spec) : io unit :=
  match steps with
  | [] => ret tt
  | f :: rest => create f ;; run_plan rest
  end.

Definition text_of (f : file_spec) : string :=
  match fs_kind f with
  | Include => inc_text defByte name once (fs_name f) (fs_deps f)
  | Source => src_text name (fs_deps f)
  end.

End Plans.

(** The three files of [createIncs]. *)
Definition tier (pfx : string) (first : bool) : list file_spec :=
  [ FileSpec Include (pfx +:+ Main.sConsts)
      (if first then [] else [Main.pPub +:+ Main.sInlines]);
    FileSpec Include (pfx +:+ Main.sTypes) [pfx +:+ Main.sConsts];
    FileSpec Include (pfx +:+ Main.sInlines) [pfx +:+ Main.sTypes] ].

Definition main_plan (g : Main.globals) : list file_spec :=
  tier (Main.pfx g) true ++
  if Main.isPfxSet g then
    [ FileSpec Include (Main.pfx g +:+ ".h") [Main.pfx g +:+ Main.sInlines];
      FileSpec Source (Main.pfx g +:+ ".c") [Main.pfx g +:+ ".h"] ]
  else
    (if (0 <? len (Main.name g))%nat
     then [FileSpec Include (Main.name g +:+ ".h")
             [Main.pfx g +:+ Main.sInlines]]
     else []) ++
    if Main.pub g then []
    else
      tier Main.pPriv false ++
      if (0 <? len (Main.name g))%nat
      then [FileSpec Source (Main.name g +:+ ".c")
              [Main.pPriv +:+ Main.sInlines]]
      else [].

(** The plan of [main] in [src/unnamed/part_000]. *)
Definition part000_plan (g : Part000.globals) : list file_spec :=
  [ FileSpec Include Part000.pubConsts [];
    FileSpec Include Part000.pubTypes [Part000.pubConsts];
    FileSpec Include Part000.pubInlines [Part000.pubTypes];
    FileSpec Include Part000.pubIncludes [Part000.pubInlines];
    FileSpec Include Part000.privConsts [Part000.pubIncludes];
    FileSpec Include Part000.privTypes [Part000.privConsts];
    FileSpec Include Part000.privInlines [Part000.privTypes];
    FileSpec Include Part000.privIncludes [Part000.privInlines] ] ++
  if (len (Part000.name g) =? 0)%nat then []
  else
    [ FileSpec Include (Part000.name g +:+ ".h") [Part000.pubIncludes];
      FileSpec Source (Part000.name g +:+ ".c") [Part000.privIncludes] ].

(** The path [createFile] resolves for a planned file. *)
Definition resolve (w : world) (f : file_spec) : option string :=
  abs w (ToLower (fs_name f)).

(** The files after a planned file was written with its text. *)
Definition put_file (w : world) (text : file_spec -> string)
    (m : gmap string string) (f : file_spec) : gmap string string :=
  match resolve w f with
  | Some fn => <[fn := text f]> m
  | None => m
  end.

(** The command lines of [src/unnamed/part_000], which defines the flags
    -name, -dir and -once and no other. *)
Definition part000_flags (fl : flags) : Prop :=
  f_pub fl = None /\ f_add fl = None.

(** A directory tree given by its files, in the order of their creation,
    each with its lines; [place cwd tree] puts it under [cwd]. *)
Definition place (cwd : string) (tree : list (string * list string))
    : gmap string string :=
  foldl (fun m f => <[in_dir cwd f.1 := unlines f.2]> m) ∅ tree.

(** -name=foo *)
Definition flags_foo : flags :=
  {| f_name := Some "foo"; f_dir := None; f_once := None; f_pub := None;
     f_add := None |}.

Definition tree_foo : list (string * list string) :=
  [ ("pub_consts.h",
     ["#ifndef __FOO_PUB_CONSTS_H__"; "#define __FOO_PUB_CONSTS_H__"; "";
      "#endif //__FOO_PUB_CONSTS_H__"]);
    ("pub_types.h",
     ["#ifndef __FOO_PUB_TYPES_H__"; "#define __FOO_PUB_TYPES_H__"; "";
      include_directive "foo/pub_consts.h"; "";
      "#endif //__FOO_PUB_TYPES_H__"]);
    ("pub_inlines.h",
     ["#ifndef __FOO_PUB_INLINES_H__"; "#define __FOO_PUB_INLINES_H__"; "";
      include_directive "foo/pub_types.h"; "";
      "#endif //__FOO_PUB_INLINES_H__"]);
    ("foo.h",
     ["#ifndef __FOO_FOO_H__"; "#define __FOO_FOO_H__"; "";
      include_directive "foo/pub_inlines.h"; "";
      "#endif //__FOO_FOO_H__"]);
    ("priv_consts.h",
     ["#ifndef __FOO_PRIV_CONSTS_H__"; "#define __FOO_PRIV_CONSTS_H__"; "";
      include_directive "foo/pub_inlines.h"; "";
      "#endif //__FOO_PRIV_CONSTS_H__"]);
    ("priv_types.h",
     ["#ifndef __FOO_PRIV_TYPES_H__"; "#define __FOO_PRIV_TYPES_H__"; "";
      include_directive "foo/priv_consts.h"; "";
      "#endif //__FOO_PRIV_TYPES_H__"]);
    ("priv_inlines.h",
     ["#ifndef __FOO_PRIV_INLINES_H__"; "#define __FOO_PRIV_INLINES_H__"; "";
      include_directive "foo/priv_types.h"; "";
      "#endif //__FOO_PRIV_INLINES_H__"]);
    ("foo.c", [include_directive "foo/priv_inlines.h"]) ].

(** -add=xxx *)
Definition flags_xxx : flags :=
  {| f_name := None; f_dir := None; f_once := None; f_pub := None;
     f_add := Some "xxx" |}.

Definition tree_xxx : list (string * list string) :=
  [ ("xxx_consts.h",
     ["#ifndef __XXX_CONSTS_H__"; "#define __XXX_CONSTS_H__"; "";
      "#endif //__XXX_CONSTS_H__"]);
    ("xxx_types.h",
     ["#ifndef __XXX_TYPES_H__"; "#define __XXX_TYPES_H__"; "";
      include_directive "xxx_consts.h"; "";
      "#endif //__XXX_TYPES_H__"]);
    ("xxx_inlines.h",
     ["#ifndef __XXX_INLINES_H__"; "#define __XXX_INLINES_H__"; "";
      include_directive "xxx_types.h"; "";
      "#endif //__XXX_INLINES_H__"]);
    ("xxx.h",
     ["#ifndef __XXX_H__"; "#define __XXX_H__"; "";
      include_directive "xxx_inlines.h"; "";
      "#endif //__XXX_H__"]);
    ("xxx.c", [include_directive "xxx.h"]) ].

(** -add=xxx -name= (the module name given, and empty) *)
Definition flags_xxx_noname : flags :=
  {| f_name := Some ""; f_dir := None; f_once := None; f_pub := None;
     f_add := Some "xxx" |}.

(** -add=Xy *)
Definition flags_Xy : flags :=
  {| f_name := None; f_dir := None; f_once := None; f_pub := None;
     f_add := Some "Xy" |}.

(** -name=pub_types *)
Definition flags_pub_types : flags :=
  {| f_name := Some "pub_types"; f_dir := None; f_once := None;
     f_pub := None; f_add := None |}.

(** -add=xxx -name=foo *)
Definition flags_xxx_foo : flags :=
  {| f_name := Some "foo"; f_dir := None; f_once := None; f_pub := None;
     f_add := Some "xxx" |}.

(** ** Further notions *)

(** The command line with -dir, or -pub, given another value. *)
Definition set_dir (d : option bool) (fl : flags) : flags :=
  {| f_name := f_name fl; f_dir := d; f_once := f_once fl;
     f_pub := f_pub fl; f_add := f_add fl |}.

Definition set_pub (b : option bool) (fl : flags) : flags :=
  {| f_name := f_name fl; f_dir := f_dir fl; f_once := f_once fl;
     f_pub := b; f_add := f_add fl |}.

(** A name of ASCII bytes. *)
Definition is_ascii (b : ascii) : bool := (byte_val b <? 128)%N.

Fixpoint ascii_only (s : string) : bool :=
  match s with
  | EmptyString => true
  | String b s' => is_ascii b && ascii_only s'
  end.

(** The bytes of a C macro name that the guard tokens are made of. *)
Definition is_underscore (b : ascii) : bool :=
  if ascii_dec b "_" then true else false.

Definition token_byte (b : ascii) : bool :=
  is_underscore b || is_upper b || is_digit b.

Definition letter_token_byte (b : ascii) : bool :=
  is_underscore b || is_upper b.

(** The number of files in the plan of [main] of [src/main.go]. *)
Definition named (name : string) : nat :=
  if (0 <? len name)%nat then 1%nat else 0%nat.

Definition main_plan_length (g : Main.globals) : nat :=
  if Main.isPfxSet g then 5%nat
  else (3 + named (Main.name g) +
        if Main.pub g then 0 else 3 + named (Main.name g))%nat.

(** A directory where [pub_consts.h] exists and the disk is full. *)
Definition w_taken_full : world :=
  {| files := {[ "/w/pub_consts.h" := "keep" ]};
     refused := fun _ => false; stuck := fun _ => false;
     wfaults := [Some 0%nat]; wd := Some "/w";
     abs := fun p => Some (in_dir "/w" p) |}.

(** A directory that may not be written, where [pub_consts.h] exists and
    may be written, and whose disk is full after three more bytes. *)
Definition w_stuck_full : world :=
  {| files := {[ "/w/pub_consts.h" := "keep" ]};
     refused := fun _ => false; stuck := fun _ => true;
     wfaults := [Some 3%nat]; wd := Some "/w";
     abs := fun p => Some (in_dir "/w" p) |}.

Definition h_plain : Part000.globals :=
  {| Part000.name := ""; Part000.useDir := false; Part000.once := false;
     Part000.isNameSet := false; Part000.isDirSet := false |}.

(** * Properties *)

(** ** Strings *)

Lemma sapp_cons (x : ascii) (a b : string) :
  String x a +:+ b = String x (a +:+ b).
Proof. reflexivity. Qed.

Lemma sapp_nil_r (s : string) : s +:+ "" = s.
Proof.
  induction s as [|b s IH]; [reflexivity|]. now rewrite sapp_cons, IH.
Qed.

Lemma sapp_assoc (a b c : string) : (a +:+ b) +:+ c = a +:+ b +:+ c.
Proof.
  induction a as [|x a IH]; [reflexivity|]. now rewrite !sapp_cons, IH.
Qed.

Lemma sapp_nil_l (s : string) : "" +:+ s = s.
Proof. reflexivity. Qed.

(** Texts built with [+:+] and [unlines], brought to one shape. *)
Ltac text_eq :=
  cbn [unlines fmap list_fmap app];
  repeat rewrite sapp_assoc;
  repeat rewrite sapp_nil_r;
  repeat rewrite sapp_nil_l;
  try reflexivity.

Lemma sapp_inv_head (a b c : string) : a +:+ b = a +:+ c -> b = c.
Proof.
  induction a as [|x a IH]; [easy|]. rewrite !sapp_cons. intros H.
  injection H as H. auto.
Qed.

Lemma bytes_app (a b : string) : bytes (a +:+ b) = bytes a ++ bytes b.
Proof.
  induction a as [|x a IH]; [reflexivity|].
  rewrite sapp_cons. unfold bytes in *. cbn. now rewrite IH.
Qed.

Lemma len_zero (s : string) : (len s =? 0)%nat = true <-> s = "".
Proof. destruct s; cbn; split; easy. Qed.

Lemma string_map_app (f : ascii -> ascii) (a b : string) :
  string_map f (a +:+ b) = string_map f a +:+ string_map f b.
Proof.
  induction a as [|x a IH]; [reflexivity|].
  rewrite sapp_cons. cbn. now rewrite IH.
Qed.

Lemma bytes_string_map (f : ascii -> ascii) (s : string) :
  bytes (string_map f s) = f <$> bytes s.
Proof.
  induction s as [|x s IH]; [reflexivity|].
  unfold bytes in *. cbn. now rewrite IH.
Qed.

Lemma unlines_app (l1 l2 : list string) :
  unlines (l1 ++ l2) = unlines l1 +:+ unlines l2.
Proof.
  induction l1 as [|l l1 IH]; [reflexivity|].
  cbn [app unlines]. now rewrite IH, !sapp_assoc.
Qed.

Lemma in_dir_inj (cwd a b : string) : in_dir cwd a = in_dir cwd b -> a = b.
Proof.
  unfold in_dir. destruct (ends_with_sep cwd); intros H;
    apply sapp_inv_head in H; [exact H|].
  now apply sapp_inv_head in H.
Qed.

Lemma Base_nonempty (path : string) : Base path <> "".
Proof.
  unfold Base. destruct path; [easy|].
  now destruct (last_element _).
Qed.

(** ** Worlds *)

Lemma world_eq (w1 w2 : world) :
  files w1 = files w2 -> refused w1 = refused w2 -> stuck w1 = stuck w2 ->
  wfaults w1 = wfaults w2 -> wd w1 = wd w2 -> abs w1 = abs w2 -> w1 = w2.
Proof. destruct w1, w2; cbn; intros; now subst. Qed.

Lemma same_env_refl (w : world) : same_env w w.
Proof. now unfold same_env. Qed.

Lemma same_env_trans (w1 w2 w3 : world) :
  same_env w1 w2 -> same_env w2 w3 -> same_env w1 w3.
Proof.
  unfold same_env. intros (-> & -> & -> & ->) (-> & -> & -> & ->). easy.
Qed.

Lemma same_env_abs (w w' : world) : same_env w w' -> abs w' = abs w.
Proof. now intros (_ & _ & _ & E). Qed.

Lemma same_env_stuck (w w' : world) : same_env w w' -> stuck w' = stuck w.
Proof. now intros (_ & E & _). Qed.

(** A file that is missing where creation is not refused can be removed
    once it is created. *)
Lemma denied_fresh (w : world) (fn : string) :
  denied w fn = false -> files w !! fn = None -> stuck w fn = false.
Proof.
  unfold denied. intros D F. rewrite F in D.
  destruct (refused w fn), (stuck w fn); easy.
Qed.

(** What is not refused stays so while no file disappears. *)
Lemma denied_mono (w w' : world) (fn : string) :
  same_env w w' ->
  (is_Some (files w !! fn) -> is_Some (files w' !! fn)) ->
  denied w fn = false -> denied w' fn = false.
Proof.
  unfold denied. intros (-> & -> & _) K D.
  apply orb_false_iff in D as [-> D]. cbn.
  destruct (stuck w fn); [|reflexivity]. cbn in *.
  apply bool_decide_eq_false in D. apply bool_decide_eq_false.
  intros N. apply D. destruct (files w !! fn) eqn:E; [|reflexivity].
  destruct K as [x K]; [eauto|]. congruence.
Qed.

Lemma denied_same (w w' : world) (fn : string) :
  same_env w w' -> files w' !! fn = None -> files w !! fn = None ->
  denied w' fn = denied w fn.
Proof. unfold denied. intros (-> & -> & _) -> ->. reflexivity. Qed.

#[local] Hint Resolve same_env_refl : core.

(** ** Sequences of writes *)

Lemma alter_app_twice (h : handle) (d1 d2 : string) (m : gmap string string) :
  alter (fun c => c +:+ d2) h (alter (fun c => c +:+ d1) h m)
  = alter (fun c => c +:+ d1 +:+ d2) h m.
Proof.
  rewrite alter_alter_eq. apply alter_ext. intros x _. cbn.
  apply sapp_assoc.
Qed.

Lemma alter_app_nil (h : handle) (m : gmap string string) :
  alter (fun c => c +:+ "") h m = m.
Proof. apply alter_id. intros x _. apply sapp_nil_r. Qed.

Lemma is_prefix_refl (t : string) : is_prefix t t.
Proof. exists "". now rewrite sapp_nil_r. Qed.

Lemma is_prefix_app (d a b : string) : is_prefix d a -> is_prefix d (a +:+ b).
Proof. intros [r ->]. exists (r +:+ b). apply sapp_assoc. Qed.

Lemma is_prefix_app_l (a d b : string) :
  is_prefix d b -> is_prefix (a +:+ d) (a +:+ b).
Proof. intros [r ->]. exists r. now rewrite sapp_assoc. Qed.

Lemma prefix_of_is_prefix (k : nat) (s : string) : is_prefix (prefix_of k s) s.
Proof.
  unfold prefix_of. revert k. induction s as [|b s IH]; intros k.
  - exists "". now destruct k.
  - destruct k as [|k]; cbn.
    + now exists (String b s).
    + destruct (IH k) as [r E]. exists r. rewrite sapp_cons. now f_equal.
Qed.

Lemma appends_ret (h : handle) : appends h "" (ret tt).
Proof.
  intros w. cbn. split; [apply same_env_refl|]. split; [|auto].
  exists "". rewrite alter_app_nil. split; [reflexivity|].
  split; [apply is_prefix_refl|reflexivity].
Qed.

Lemma appends_Write (h : handle) (data : string) : appends h data (Write h data).
Proof.
  intros w. unfold Write. destruct (wfaults w) as [|[k|] rest] eqn:E; cbn.
  - split; [now unfold same_env|]. split; [|auto].
    exists data. split; [reflexivity|]. split; [apply is_prefix_refl|easy].
  - split; [now unfold same_env|]. split; [|split; [auto|easy]].
    exists (prefix_of k data). split; [reflexivity|].
    split; [apply prefix_of_is_prefix|easy].
  - split; [now unfold same_env|]. split; [|split; [auto|easy]].
    exists data. split; [reflexivity|]. split; [apply is_prefix_refl|easy].
Qed.

Lemma appends_bind (h : handle) (a b : string) (m1 m2 : io unit) :
  appends h a m1 -> appends h b m2 -> appends h (a +:+ b) (m1 ;; m2).
Proof.
  intros H1 H2 w. unfold bind.
  destruct (H1 w) as (E1 & (d1 & F1 & P1 & T1) & R1 & N1).
  destruct (m1 w) as [[[]|e] w1] eqn:M1; cbn in *.
  - destruct (H2 w1) as (E2 & (d2 & F2 & P2 & T2) & R2 & N2).
    split; [eapply same_env_trans; eauto|].
    split.
    + exists (d1 +:+ d2). split; [|split].
      * now rewrite F2, F1, alter_app_twice.
      * rewrite (T1 eq_refl). now apply is_prefix_app_l.
      * intros O. now rewrite T1, T2.
    + split; [exact R2|]. intros W. destruct (N1 W) as [_ W1]. auto.
  - split; [exact E1|]. split.
    + exists d1. split; [exact F1|].
      split; [now apply is_prefix_app|]. intros O; discriminate O.
    + split; [exact R1|]. intros W. destruct (N1 W) as [O _]. discriminate O.
Qed.

(** Counting the writes. *)
Lemma fails_within_nil (n : nat) : fails_within n [] = false.
Proof. now destruct n. Qed.

Lemma fails_within_add (n1 n2 : nat) (l : list (option nat)) :
  fails_within (n1 + n2) l
  = fails_within n1 l || fails_within n2 (drop n1 l).
Proof.
  revert l. induction n1 as [|n1 IH]; intros l; [reflexivity|].
  destruct l as [|[k|] l]; cbn.
  - now rewrite fails_within_nil.
  - reflexivity.
  - apply IH.
Qed.

Lemma writes_ret : writes 0 (ret tt).
Proof. intros w. cbn. auto. Qed.

Lemma writes_Write (h : handle) (data : string) : writes 1 (Write h data).
Proof.
  intros w. unfold Write. destruct (wfaults w) as [|[k|] rest] eqn:E; cbn.
  - split; [reflexivity|]. intros _. now rewrite E.
  - split; [reflexivity|discriminate].
  - split; [reflexivity|]. intros _. now rewrite drop_0.
Qed.

Lemma writes_bind (n1 n2 : nat) (m1 m2 : io unit) :
  writes n1 m1 -> writes n2 m2 -> writes (n1 + n2) (m1 ;; m2).
Proof.
  intros H1 H2 w. unfold bind. rewrite fails_within_add.
  destruct (H1 w) as [R1 D1].
  destruct (m1 w) as [[[]|e] w1] eqn:M1; cbn in *.
  - destruct (fails_within n1 (wfaults w)); [discriminate R1|].
    destruct (H2 w1) as [R2 D2]. rewrite (D1 eq_refl) in R2, D2. cbn.
    split; [exact R2|]. intros O. rewrite (D2 O). now rewrite drop_drop.
  - destruct (fails_within n1 (wfaults w)); [|discriminate R1].
    cbn. split; [exact R1|discriminate].
Qed.

Lemma writes_when (h : handle) (b : bool) (data : string) :
  writes (if b then 1 else 0) (if b then Write h data else ret tt).
Proof. destruct b; [apply writes_Write | apply writes_ret]. Qed.

Lemma writes_eq (n n' : nat) (m : io unit) : n = n' -> writes n m -> writes n' m.
Proof. now intros ->. Qed.

Lemma appends_when (h : handle) (b : bool) (data : string) :
  appends h (if b then data else "") (if b then Write h data else ret tt).
Proof. destruct b; [apply appends_Write | apply appends_ret]. Qed.

Lemma appends_eq (h : handle) (a b : string) (m : io unit) :
  a = b -> appends h a m -> appends h b m.
Proof. now intros ->. Qed.

(** ** The writer *)

Section WriterFacts.

Variable fileCreate : Z.
Variable defByte : ascii -> ascii.
Variable name : string.
Variable once : bool.

Lemma defName_loop_map (r n : string) :
  Writer.defName_loop defByte r n = r +:+ string_map defByte n.
Proof.
  revert r. induction n as [|b n IH]; intros r; cbn.
  - now rewrite sapp_nil_r.
  - now rewrite IH, sapp_assoc.
Qed.

Lemma defName_guard (iname : string) :
  Writer.defName defByte name iname
  = guard_of defByte (Writer.includeName name iname).
Proof.
  unfold Writer.defName, guard_of. now rewrite defName_loop_map, sapp_assoc.
Qed.

Lemma appends_writeInclude (h : handle) (iname : string) :
  appends h (include_directive (Writer.includeName name iname) +:+ nl)
    (Writer.writeInclude name h iname).
Proof.
  unfold Writer.writeInclude, include_directive.
  eapply appends_eq; [|apply appends_Write]. text_eq.
Qed.

Lemma appends_writeIncludes (h : handle) (inc : list string) :
  appends h (unlines (source_lines (Writer.includeName name <$> inc)))
    (Writer.writeIncludes name h inc).
Proof.
  induction inc as [|i inc IH]; cbn.
  - apply appends_ret.
  - eapply appends_eq; [|apply appends_bind;
      [apply appends_writeInclude | exact IH]].
    text_eq.
Qed.

Lemma appends_writeHeader (h : handle) (iname : string) :
  let def := Writer.defName defByte name iname in
  appends h
    (unlines ((if once then ["#pragma once"; ""] else []) ++
              ["#ifndef " +:+ def; "#define " +:+ def; ""]))
    (Writer.writeHeader defByte name once h iname).
Proof.
  intros def. unfold Writer.writeHeader. fold def.
  rewrite unlines_app. apply appends_bind.
  - destruct once; [|apply appends_ret].
    eapply appends_eq; [|apply appends_Write]. text_eq.
  - eapply appends_eq; [|apply appends_Write]. text_eq.
Qed.

Lemma appends_writeFooter (h : handle) (iname : string) :
  appends h (unlines ["#endif //" +:+ Writer.defName defByte name iname])
    (Writer.writeFooter defByte name h iname).
Proof.
  unfold Writer.writeFooter.
  eapply appends_eq; [|apply appends_Write]. text_eq.
Qed.

(** The body of [createNamedInc] writes the guarded text. *)
Lemma appends_inc_body (h : handle) (iname : string) (inc : list string) :
  appends h
    (unlines (guarded_lines once (Writer.defName defByte name iname)
                (Writer.includeName name <$> inc)))
    (Writer.writeHeader defByte name once h iname ;;
     Writer.writeIncludes name h inc ;;
     (if (0 <? length inc)%nat then Write h nl else ret tt) ;;
     Writer.writeFooter defByte name h iname).
Proof.
  eapply appends_eq; cycle 1.
  - apply appends_bind; [apply appends_writeHeader|].
    apply appends_bind; [apply appends_writeIncludes|].
    apply appends_bind; [|apply appends_writeFooter].
    apply (appends_when h (0 <? length inc)%nat nl).
  - unfold guarded_lines, source_lines.
    rewrite app_assoc, (unlines_app (_ ++ _)), (unlines_app (_ <$> _)),
      (unlines_app (match _ with [] => [] | _ => _ end)).
    do 2 f_equal. now destruct inc.
Qed.

Lemma writes_writeIncludes (h : handle) (inc : list string) :
  writes (length inc) (Writer.writeIncludes name h inc).
Proof.
  induction inc as [|i inc IH]; cbn [Writer.writeIncludes length].
  - apply writes_ret.
  - apply (writes_bind 1 (length inc)); [apply writes_Write | exact IH].
Qed.

Lemma writes_inc_body (h : handle) (iname : string) (inc : list string) :
  writes (inc_writes once inc)
    (Writer.writeHeader defByte name once h iname ;;
     Writer.writeIncludes name h inc ;;
     (if (0 <? length inc)%nat then Write h nl else ret tt) ;;
     Writer.writeFooter defByte name h iname).
Proof.
  eapply writes_eq; cycle 1.
  - apply writes_bind.
    + unfold Writer.writeHeader. apply writes_bind.
      * apply (writes_when h once).
      * apply writes_Write.
    + apply writes_bind; [apply writes_writeIncludes|].
      apply writes_bind; [apply (writes_when h (0 <? length inc)%nat)|].
      apply writes_Write.
  - unfold inc_writes. lia.
Qed.

(** [createFile]. *)
Lemma createFile_unfold (fname : string) (w : world) :
  Writer.createFile fileCreate fname w
  = match abs w (ToLower fname) with
    | None => (Err ENOWD, w)
    | Some fn =>
        match OpenFile fn fileCreate Writer.fileMode w with
        | (Ok fd, w1) => (Ok (fd, fn), w1)
        | (Err e, w1) => (Err e, w1)
        end
    end.
Proof.
  unfold Writer.createFile, bind, Abs, ret.
  destruct (abs w (ToLower fname)); [|reflexivity].
  now destruct (OpenFile _ _ _ w) as [[fd|e] w1].
Qed.

Lemma createFile_exists (fname fn c : string) (w : world) :
  has_flag fileCreate O_CREATE = true -> exclusive fileCreate = true ->
  abs w (ToLower fname) = Some fn -> files w !! fn = Some c ->
  Writer.createFile fileCreate fname w = (Err EEXIST, w).
Proof.
  unfold exclusive. intros C X A F.
  rewrite createFile_unfold, A. unfold OpenFile. now rewrite F, C, X.
Qed.

Lemma createFile_fresh (fname fn : string) (w : world) :
  creating fileCreate ->
  abs w (ToLower fname) = Some fn -> denied w fn = false ->
  files w !! fn = None \/ exclusive fileCreate = false ->
  Writer.createFile fileCreate fname w
  = (Ok (fn, fn), set_files (insert fn "") w).
Proof.
  unfold exclusive. intros [C T] A D F.
  rewrite createFile_unfold, A. unfold OpenFile.
  destruct (files w !! fn) eqn:E.
  - destruct F as [F|F]; [discriminate F|].
    now rewrite C, F, D, T.
  - now rewrite C, D.
Qed.

Lemma createFile_inv (fname : string) (w w1 : world)
    (r : result (handle * string)) :
  creating fileCreate ->
  Writer.createFile fileCreate fname w = (r, w1) ->
  match r with
  | Ok (h, fn) =>
      h = fn /\ abs w (ToLower fname) = Some fn /\ denied w fn = false /\
      (exclusive fileCreate = true -> files w !! fn = None) /\
      w1 = set_files (insert fn "") w
  | Err e => w1 = w /\ e <> EIO
  end.
Proof.
  unfold exclusive. intros [C T]. rewrite createFile_unfold.
  destruct (abs w (ToLower fname)) as [fn|] eqn:A.
  2:{ intros [= <- <-]. easy. }
  unfold OpenFile. rewrite C, T. cbn [negb andb].
  destruct (files w !! fn) eqn:F, (has_flag fileCreate O_EXCL),
    (denied w fn) eqn:D; cbn -[insert]; intros [= <- <-]; easy.
Qed.

(** The file that exclusive creation has opened was not there, and can be
    removed. *)
Lemma createFile_opened (fname h fn : string) (w w1 : world) :
  creating fileCreate ->
  Writer.createFile fileCreate fname w = (Ok (h, fn), w1) ->
  denied w fn = false /\
  (exclusive fileCreate = true -> files w !! fn = None /\ stuck w fn = false) /\
  (files w !! fn = None -> stuck w fn = false).
Proof.
  intros C CF. apply createFile_inv in CF; [|exact C].
  destruct CF as (_ & _ & D & X & _).
  split; [exact D|]. split.
  - intros E. split; [auto|]. apply denied_fresh; auto.
  - now apply denied_fresh.
Qed.

(** [createNamedInc] and [createNamedSrc], through their common shape. *)
Section CreateThen.

Variable body : handle -> io unit.
Variable text : string.
Hypothesis creates : creating fileCreate.
Hypothesis body_appends : forall h, appends h text (body h).

Lemma create_then_Ok (fname : string) (u : unit) (w w' : world) :
  create_then fileCreate fname body w = (Ok u, w') ->
  exists fn,
    abs w (ToLower fname) = Some fn /\ denied w fn = false /\
    (exclusive fileCreate = true -> files w !! fn = None) /\
    files w' = <[fn := text]> (files w) /\ same_env w w'.
Proof.
  unfold create_then.
  destruct (Writer.createFile fileCreate fname w) as [[[h fn]|e] w1] eqn:CF;
    [|discriminate].
  apply createFile_inv in CF; [|exact creates].
  destruct CF as (-> & A & D & X & ->).
  unfold Writer.deferred, Close.
  destruct (body_appends fn (set_files (insert fn "") w))
    as (E & (d & F & _ & T) & _ & _).
  destruct (body fn _) as [[[]|e] w2]; [|discriminate].
  intros [= _ <-]. exists fn. cbn in *.
  rewrite (T eq_refl) in F. rewrite alter_insert_eq in F.
  split; [exact A|]. split; [exact D|]. split; [exact X|].
  split; [exact F|exact E].
Qed.

Lemma create_then_Err (fname : string) (e : error) (w w' : world) :
  create_then fileCreate fname body w = (Err e, w') ->
  same_env w w' /\
  ((Writer.createFile fileCreate fname w = (Err e, w) /\ e <> EIO /\
    w' = w) \/
   (e = EIO /\ exists fn w1 d,
      Writer.createFile fileCreate fname w = (Ok (fn, fn), w1) /\
      abs w (ToLower fname) = Some fn /\ denied w fn = false /\
      (exclusive fileCreate = true -> files w !! fn = None) /\
      is_prefix d text /\
      files w' = if stuck w fn then <[fn := d]> (files w)
                 else delete fn (files w))).
Proof.
  unfold create_then.
  destruct (Writer.createFile fileCreate fname w) as [[[h fn]|e0] w1] eqn:CF.
  - pose proof CF as CF'.
    apply createFile_inv in CF; [|exact creates].
    destruct CF as (-> & A & D & X & ->).
    unfold Writer.deferred, Close, Remove.
    destruct (body_appends fn (set_files (insert fn "") w))
      as (E & (d & F & P & _) & R & _).
    destruct (body fn _) as [[[]|e1] w2]; [discriminate|].
    intros [= <- <-]. cbn in *.
    destruct R as [R|R]; [discriminate R|]. injection R as ->.
    rewrite (same_env_stuck _ _ E : stuck w2 = stuck w).
    rewrite alter_insert_eq, sapp_nil_l in F.
    split.
    { destruct (stuck w fn); exact E. }
    right. split; [reflexivity|].
    exists fn, (set_files (insert fn "") w), d.
    split; [reflexivity|]. split; [exact A|]. split; [exact D|].
    split; [exact X|]. split; [exact P|].
    destruct (stuck w fn); cbn; [exact F|].
    now rewrite F, delete_insert_eq.
  - apply createFile_inv in CF; [|exact creates].
    destruct CF as [-> NE]. intros [= <- <-]. auto.
Qed.

Lemma create_then_clean (fname fn : string) (w : world) :
  abs w (ToLower fname) = Some fn -> denied w fn = false ->
  files w !! fn = None \/ exclusive fileCreate = false ->
  wfaults w = [] ->
  create_then fileCreate fname body w
  = (Ok tt, set_files (insert fn text) w).
Proof.
  intros A D F W. unfold create_then.
  rewrite (createFile_fresh fname fn w creates A D F).
  unfold Writer.deferred, Close.
  destruct (body_appends fn (set_files (insert fn "") w))
    as (E & (d & Fi & _ & T) & _ & N).
  destruct (N W) as [O W'].
  destruct (body fn _) as [r w2]. cbn in *. subst r.
  f_equal. rewrite (T eq_refl), alter_insert_eq in Fi.
  destruct E as (E1 & E2 & E3 & E4).
  apply world_eq; cbn;
    [exact Fi | exact E1 | exact E2 | congruence | exact E3 | exact E4].
Qed.

(** The outcome by the fault script: the creation fails exactly when one
    of the writes of the body fails. *)
Section Faults.

Variable n : nat.
Hypothesis body_writes : forall h, writes n (body h).

Lemma create_then_result (fname h fn : string) (w w1 : world) :
  Writer.createFile fileCreate fname w = (Ok (h, fn), w1) ->
  (create_then fileCreate fname body w).1
  = if fails_within n (wfaults w) then Err EIO else Ok tt.
Proof.
  intros CF. unfold create_then. rewrite CF.
  apply createFile_inv in CF; [|exact creates].
  destruct CF as (-> & A & D & X & ->).
  unfold Writer.deferred.
  destruct (body_writes fn (set_files (insert fn "") w)) as [R _].
  cbn [wfaults set_files] in R.
  now destruct (body fn _) as [[[]|e] w2]; cbn in *; rewrite <- R.
Qed.

Lemma create_then_fails (fname h fn : string) (w w1 : world) :
  Writer.createFile fileCreate fname w = (Ok (h, fn), w1) ->
  fails_within n (wfaults w) = true ->
  exists w' d,
    create_then fileCreate fname body w = (Err EIO, w') /\
    is_prefix d text /\
    files w' = if stuck w fn then <[fn := d]> (files w)
               else delete fn (files w).
Proof.
  intros CF FW. pose proof (create_then_result fname h fn w w1 CF) as R.
  rewrite FW in R.
  destruct (create_then fileCreate fname body w) as [r w'] eqn:H.
  cbn in R. subst r. exists w'.
  apply create_then_Err in H
    as [_ [(_ & NE & _)|(_ & fn' & w1' & d & CF' & _ & _ & _ & P & F)]];
    [now destruct NE|].
  rewrite CF in CF'. injection CF' as _ <- _. eauto.
Qed.

End Faults.

End CreateThen.

End WriterFacts.

(** ** The two kinds of generated files *)

Section NamedFiles.

Variable fileCreate : Z.
Variable defByte : ascii -> ascii.
Variable name : string.
Variable once : bool.
Hypothesis creates : creating fileCreate.

Let inc_body (iname : string) (inc : list string) (h : handle) : io unit :=
  Writer.writeHeader defByte name once h iname ;;
  Writer.writeIncludes name h inc ;;
  (if (0 <? length inc)%nat then Write h nl else ret tt) ;;
  Writer.writeFooter defByte name h iname.

Lemma inc_body_appends (iname : string) (inc : list string) (h : handle) :
  appends h (inc_text defByte name once iname inc) (inc_body iname inc h).
Proof.
  unfold inc_text. rewrite <- defName_guard. apply appends_inc_body.
Qed.

Lemma src_body_appends (inc : list string) (h : handle) :
  appends h (src_text name inc) (Writer.writeIncludes name h inc).
Proof. apply appends_writeIncludes. Qed.

Lemma createNamedInc_Ok iname inc u w w' :
  Writer.createNamedInc fileCreate defByte name once iname inc w = (Ok u, w') ->
  exists fn,
    abs w (ToLower iname) = Some fn /\ denied w fn = false /\
    (exclusive fileCreate = true -> files w !! fn = None) /\
    files w' = <[fn := inc_text defByte name once iname inc]> (files w) /\
    same_env w w'.
Proof.
  apply (create_then_Ok fileCreate (inc_body iname inc) _ creates
           (inc_body_appends iname inc)).
Qed.

Lemma createNamedSrc_Ok sname inc u w w' :
  Writer.createNamedSrc fileCreate name sname inc w = (Ok u, w') ->
  exists fn,
    abs w (ToLower sname) = Some fn /\ denied w fn = false /\
    (exclusive fileCreate = true -> files w !! fn = None) /\
    files w' = <[fn := src_text name inc]> (files w) /\
    same_env w w'.
Proof.
  apply (create_then_Ok fileCreate (fun h => Writer.writeIncludes name h inc)
           _ creates (src_body_appends inc)).
Qed.

Lemma createNamedInc_Err iname inc e w w' :
  Writer.createNamedInc fileCreate defByte name once iname inc w = (Err e, w') ->
  same_env w w' /\
  ((Writer.createFile fileCreate iname w = (Err e, w) /\ e <> EIO /\ w' = w) \/
   (e = EIO /\ exists fn w1 d,
      Writer.createFile fileCreate iname w = (Ok (fn, fn), w1) /\
      abs w (ToLower iname) = Some fn /\ denied w fn = false /\
      (exclusive fileCreate = true -> files w !! fn = None) /\
      is_prefix d (inc_text defByte name once iname inc) /\
      files w' = if stuck w fn then <[fn := d]> (files w)
                 else delete fn (files w))).
Proof.
  apply (create_then_Err fileCreate (inc_body iname inc) _ creates
           (inc_body_appends iname inc)).
Qed.

Lemma createNamedSrc_Err sname inc e w w' :
  Writer.createNamedSrc fileCreate name sname inc w = (Err e, w') ->
  same_env w w' /\
  ((Writer.createFile fileCreate sname w = (Err e, w) /\ e <> EIO /\ w' = w) \/
   (e = EIO /\ exists fn w1 d,
      Writer.createFile fileCreate sname w = (Ok (fn, fn), w1) /\
      abs w (ToLower sname) = Some fn /\ denied w fn = false /\
      (exclusive fileCreate = true -> files w !! fn = None) /\
      is_prefix d (src_text name inc) /\
      files w' = if stuck w fn then <[fn := d]> (files w)
                 else delete fn (files w))).
Proof.
  apply (create_then_Err fileCreate (fun h => Writer.writeIncludes name h inc)
           _ creates (src_body_appends inc)).
Qed.

Lemma createNamedInc_clean iname inc fn w :
  abs w (ToLower iname) = Some fn -> denied w fn = false ->
  files w !! fn = None \/ exclusive fileCreate = false ->
  wfaults w = [] ->
  Writer.createNamedInc fileCreate defByte name once iname inc w
  = (Ok tt, set_files (insert fn (inc_text defByte name once iname inc)) w).
Proof.
  apply (create_then_clean fileCreate (inc_body iname inc) _ creates
           (inc_body_appends iname inc)).
Qed.

Lemma createNamedSrc_clean sname inc fn w :
  abs w (ToLower sname) = Some fn -> denied w fn = false ->
  files w !! fn = None \/ exclusive fileCreate = false ->
  wfaults w = [] ->
  Writer.createNamedSrc fileCreate name sname inc w
  = (Ok tt, set_files (insert fn (src_text name inc)) w).
Proof.
  apply (create_then_clean fileCreate (fun h => Writer.writeIncludes name h inc)
           _ creates (src_body_appends inc)).
Qed.

(** A creation whose file was opened fails exactly when a write fails;
    the file is then removed, or left with what was written when it cannot
    be removed. *)
Lemma createNamedInc_fails iname inc h fn w w1 :
  Writer.createFile fileCreate iname w = (Ok (h, fn), w1) ->
  fails_within (inc_writes once inc) (wfaults w) = true ->
  exists w' d,
    Writer.createNamedInc fileCreate defByte name once iname inc w
    = (Err EIO, w') /\
    is_prefix d (inc_text defByte name once iname inc) /\
    files w' = if stuck w fn then <[fn := d]> (files w)
               else delete fn (files w).
Proof.
  apply (create_then_fails fileCreate (inc_body iname inc) _ creates
           (inc_body_appends iname inc) (inc_writes once inc)).
  intros h'. apply writes_inc_body.
Qed.

Lemma createNamedSrc_fails sname inc h fn w w1 :
  Writer.createFile fileCreate sname w = (Ok (h, fn), w1) ->
  fails_within (src_writes inc) (wfaults w) = true ->
  exists w' d,
    Writer.createNamedSrc fileCreate name sname inc w = (Err EIO, w') /\
    is_prefix d (src_text name inc) /\
    files w' = if stuck w fn then <[fn := d]> (files w)
               else delete fn (files w).
Proof.
  apply (create_then_fails fileCreate (fun h => Writer.writeIncludes name h inc)
           _ creates (src_body_appends inc) (src_writes inc)).
  intros h'. apply writes_writeIncludes.
Qed.

(** A creation that returned an error after its file was opened returned
    the write error. *)
Lemma createNamedInc_Err_opened iname inc h fn w w1 e w' :
  Writer.createFile fileCreate iname w = (Ok (h, fn), w1) ->
  Writer.createNamedInc fileCreate defByte name once iname inc w = (Err e, w') ->
  e = EIO /\ denied w fn = false /\
  files w' = if stuck w fn
             then <[fn := default "" (files w' !! fn)]> (files w)
             else delete fn (files w).
Proof.
  intros CF H. apply createNamedInc_Err in H as [_ [(CF' & _)|(-> & H)]].
  - rewrite CF in CF'. discriminate CF'.
  - destruct H as (fn' & w1' & d & CF' & _ & D & _ & _ & F).
    rewrite CF in CF'. injection CF' as _ <- _.
    split; [reflexivity|]. split; [exact D|].
    destruct (stuck w fn); [|exact F].
    rewrite F at 1. f_equal. rewrite F. now rewrite lookup_insert_eq.
Qed.

Lemma createNamedSrc_Err_opened sname inc h fn w w1 e w' :
  Writer.createFile fileCreate sname w = (Ok (h, fn), w1) ->
  Writer.createNamedSrc fileCreate name sname inc w = (Err e, w') ->
  e = EIO /\ denied w fn = false /\
  files w' = if stuck w fn
             then <[fn := default "" (files w' !! fn)]> (files w)
             else delete fn (files w).
Proof.
  intros CF H. apply createNamedSrc_Err in H as [_ [(CF' & _)|(-> & H)]].
  - rewrite CF in CF'. discriminate CF'.
  - destruct H as (fn' & w1' & d & CF' & _ & D & _ & _ & F).
    rewrite CF in CF'. injection CF' as _ <- _.
    split; [reflexivity|]. split; [exact D|].
    destruct (stuck w fn); [|exact F].
    rewrite F at 1. f_equal. rewrite F. now rewrite lookup_insert_eq.
Qed.

(** What a successful creation leaves under the name it was given. *)
Lemma read_after_insert fname fn text w w' :
  abs w (ToLower fname) = Some fn -> same_env w w' ->
  files w' = <[fn := text]> (files w) ->
  read_file w' fname = Some text.
Proof.
  intros A E F. unfold read_file.
  rewrite (same_env_abs _ _ E), A, F. apply lookup_insert_eq.
Qed.

(** With exclusive creation nothing that exists is touched. *)
Section Exclusive.

Hypothesis excl : exclusive fileCreate = true.

Lemma createNamedInc_preserves iname inc :
  preserves (Writer.createNamedInc fileCreate defByte name once iname inc).
Proof.
  intros w.
  destruct (Writer.createNamedInc _ _ _ _ _ _ w) as [[u|e] w'] eqn:H; cbn.
  - apply createNamedInc_Ok in H as (fn & _ & _ & X & -> & E).
    split; [|exact E]. apply insert_subseteq. auto.
  - apply createNamedInc_Err in H
      as [E [(_ & _ & ->)|(_ & fn & w1 & d & _ & _ & D & X & _ & ->)]].
    + easy.
    + split; [|exact E]. rewrite (denied_fresh w fn D (X excl)).
      rewrite delete_id by auto. reflexivity.
Qed.

Lemma createNamedSrc_preserves sname inc :
  preserves (Writer.createNamedSrc fileCreate name sname inc).
Proof.
  intros w.
  destruct (Writer.createNamedSrc _ _ _ _ w) as [[u|e] w'] eqn:H; cbn.
  - apply createNamedSrc_Ok in H as (fn & _ & _ & X & -> & E).
    split; [|exact E]. apply insert_subseteq. auto.
  - apply createNamedSrc_Err in H
      as [E [(_ & _ & ->)|(_ & fn & w1 & d & _ & _ & D & X & _ & ->)]].
    + easy.
    + split; [|exact E]. rewrite (denied_fresh w fn D (X excl)).
      rewrite delete_id by auto. reflexivity.
Qed.

End Exclusive.

End NamedFiles.

Lemma preserves_ret {A} (a : A) : preserves (ret a).
Proof. intros w. cbn. split; [reflexivity | apply same_env_refl]. Qed.

Lemma preserves_bind {A B} (m : io A) (k : A -> io B) :
  preserves m -> (forall a, preserves (k a)) -> preserves (bind m k).
Proof.
  intros Hm Hk w. unfold bind. destruct (Hm w) as [S E].
  destruct (m w) as [[a|e] w1]; cbn in *; [|easy].
  destruct (Hk a w1) as [S' E'].
  split; [now transitivity (files w1) | eapply same_env_trans; eauto].
Qed.

(** Reading a run of [bind]s that succeeded, one step at a time. *)
Lemma bind_Ok {A B} (m : io A) (k : A -> io B) (b : B) (w w' : world) :
  bind m k w = (Ok b, w') ->
  exists a w1, m w = (Ok a, w1) /\ k a w1 = (Ok b, w').
Proof.
  unfold bind. destruct (m w) as [[a|e] w1]; [|discriminate]. eauto.
Qed.

Lemma bind_step {A B} (m : io A) (k : A -> io B) (a : A) (w w1 : world) :
  m w = (Ok a, w1) -> bind m k w = k a w1.
Proof. unfold bind. now intros ->. Qed.

(** ** The two programs *)

Lemma Main_creating : creating Main.fileCreate.
Proof. split; reflexivity. Qed.

Lemma Main_exclusive : exclusive Main.fileCreate = true.
Proof. reflexivity. Qed.

Lemma Part000_creating : creating Part000.fileCreate.
Proof. split; reflexivity. Qed.

Lemma Main_inc_preserves g iname inc :
  preserves (Main.createNamedInc g iname inc).
Proof.
  apply createNamedInc_preserves; [apply Main_creating | apply Main_exclusive].
Qed.

Lemma Main_src_preserves g sname inc :
  preserves (Main.createNamedSrc g sname inc).
Proof.
  apply createNamedSrc_preserves; [apply Main_creating | apply Main_exclusive].
Qed.

Ltac preserve :=
  repeat first
    [ apply preserves_ret
    | apply Main_inc_preserves
    | apply Main_src_preserves
    | apply preserves_bind; [|intros ?]
    | match goal with
      | |- preserves (if ?b then _ else _) => destruct b
      end ].

Lemma Main_createIncs_preserves g first : preserves (Main.createIncs g first).
Proof. unfold Main.createIncs. preserve. Qed.

Lemma Main_generate_preserves g : preserves (Main.generate g).
Proof.
  unfold Main.generate. cbv zeta.
  apply preserves_bind; [apply Main_createIncs_preserves|intros _].
  destruct (Main.isPfxSet g); [preserve|].
  apply preserves_bind; [preserve|intros _].
  destruct (Main.pub g); [preserve|].
  apply preserves_bind; [apply Main_createIncs_preserves|intros _].
  preserve.
Qed.

Lemma Main_main_preserves fl w : files w ⊆ files (Main.main fl w).2.
Proof.
  unfold Main.main. destruct (Main.checkFlags fl w) as [|g]; [reflexivity|].
  destruct (Main_generate_preserves g w) as [S _].
  now destruct (Main.generate g w) as [[u|e] w'].
Qed.

(** ** File creation (C1) *)

(** C1, as the programs have it. In [src/main.go] a file is created with
    O_EXCL: when a file exists at the lower-cased, resolved path, [createFile]
    fails with the already-exists error and changes nothing, and a whole run
    leaves every file it finds with the content it had (nothing is
    overwritten, merged or appended to). In [src/unnamed/part_000] the flags
    are O_RDWR|O_CREATE|O_TRUNC: [createFile] opens the existing file and
    empties it. *)
Theorem creation_exclusive_in_main_truncating_in_part000 :
  (forall fname fn c w,
     abs w (ToLower fname) = Some fn -> files w !! fn = Some c ->
     Main.createFile fname w = (Err EEXIST, w)) /\
  (forall fl w p c,
     files w !! p = Some c -> files (Main.main fl w).2 !! p = Some c) /\
  (forall fname fn c w,
     abs w (ToLower fname) = Some fn -> files w !! fn = Some c ->
     denied w fn = false ->
     Part000.createFile fname w = (Ok (fn, fn), set_files (insert fn "") w)).
Proof.
  split; [|split].
  - intros fname fn c w A F.
    now apply (createFile_exists Main.fileCreate fname fn c w).
  - intros fl w p c F.
    eapply lookup_weaken; [exact F | apply Main_main_preserves].
  - intros fname fn c w A F D.
    apply createFile_fresh; auto using Part000_creating.
Qed.

Lemma creation_exclusive_witness :
  abs w_taken (ToLower "Pub_Consts.h") = Some "/w/pub_consts.h" /\
  files w_taken !! "/w/pub_consts.h" = Some "keep" /\
  Main.createFile "Pub_Consts.h" w_taken = (Err EEXIST, w_taken).
Proof.
  split; [reflexivity|]. split; [reflexivity|].
  apply (proj1 creation_exclusive_in_main_truncating_in_part000
           "Pub_Consts.h" "/w/pub_consts.h" "keep" w_taken); reflexivity.
Defined.

(** C1 fails on [src/unnamed/part_000]: with [pub_consts.h] present,
    [createFile] succeeds and the file is emptied, and the run ends with
    status 0 and another content in the file. *)
Lemma part000_overwrites_existing_file :
  files w_taken !! "/w/pub_consts.h" = Some "keep" /\
  (Part000.createFile "pub_consts.h" w_taken).1
    = Ok ("/w/pub_consts.h", "/w/pub_consts.h") /\
  files (Part000.createFile "pub_consts.h" w_taken).2 !! "/w/pub_consts.h"
    = Some "" /\
  (Part000.main no_flags w_taken).1 = 0 /\
  files (Part000.main no_flags w_taken).2 !! "/w/pub_consts.h"
    = Some (unlines ["#ifndef __PUB_CONSTS_H__"; "#define __PUB_CONSTS_H__";
                     ""; "#endif //__PUB_CONSTS_H__"]).
Proof. repeat split; vm_compute; reflexivity. Qed.

(** ** Cleanup after a failed write (C2) *)

(** C2, as the programs have it. In both programs, once [createFile] has
    succeeded for an include or a source file, the creation of the file
    returns the write error whenever one of its writes fails, and the
    deferred function then calls [os.Remove] on the path. In [src/main.go]
    the file was created by this call (O_EXCL), the removal succeeds, and no
    file remains: every path holds what it held before the call. In
    [src/unnamed/part_000] the file may have been there before the call
    and the result of [os.Remove] is not looked at: no file remains when the
    file can be removed (what was there before is then lost); when it cannot,
    which is possible only for a file that was there before, it remains with
    the beginning of the new text that was written. *)
Theorem failed_write_leaves_no_file :
  (forall g iname inc w h fn w1,
     Main.createFile iname w = (Ok (h, fn), w1) ->
     (fails_within (inc_writes (Main.once g) inc) (wfaults w) = true ->
      exists w',
        Main.createNamedInc g iname inc w = (Err EIO, w') /\
        files w' !! fn = None /\ files w' = files w) /\
     (forall e w',
        Main.createNamedInc g iname inc w = (Err e, w') ->
        e = EIO /\ files w' !! fn = None /\ files w' = files w)) /\
  (forall g sname inc w h fn w1,
     Main.createFile sname w = (Ok (h, fn), w1) ->
     (fails_within (src_writes inc) (wfaults w) = true ->
      exists w',
        Main.createNamedSrc g sname inc w = (Err EIO, w') /\
        files w' !! fn = None /\ files w' = files w) /\
     (forall e w',
        Main.createNamedSrc g sname inc w = (Err e, w') ->
        e = EIO /\ files w' !! fn = None /\ files w' = files w)) /\
  (forall g iname inc w h fn w1,
     Part000.createFile iname w = (Ok (h, fn), w1) ->
     (fails_within (inc_writes (Part000.once g) inc) (wfaults w) = true ->
      exists w',
        Part000.createNamedInc g iname inc w = (Err EIO, w') /\
        (stuck w fn = false ->
         files w' !! fn = None /\ files w' = delete fn (files w)) /\
        (stuck w fn = true ->
         exists d,
           files w' !! fn = Some d /\
           is_prefix d
             (inc_text Part000.defByte (Part000.name g) (Part000.once g)
                iname inc))) /\
     (forall e w',
        Part000.createNamedInc g iname inc w = (Err e, w') ->
        e = EIO /\
        (stuck w fn = false ->
         files w' !! fn = None /\ files w' = delete fn (files w))) /\
     (files w !! fn = None -> stuck w fn = false)) /\
  (forall g sname inc w h fn w1,
     Part000.createFile sname w = (Ok (h, fn), w1) ->
     (fails_within (src_writes inc) (wfaults w) = true ->
      exists w',
        Part000.createNamedSrc g sname inc w = (Err EIO, w') /\
        (stuck w fn = false ->
         files w' !! fn = None /\ files w' = delete fn (files w)) /\
        (stuck w fn = true ->
         exists d,
           files w' !! fn = Some d /\
           is_prefix d (src_text (Part000.name g) inc))) /\
     (forall e w',
        Part000.createNamedSrc g sname inc w = (Err e, w') ->
        e = EIO /\
        (stuck w fn = false ->
         files w' !! fn = None /\ files w' = delete fn (files w))) /\
     (files w !! fn = None -> stuck w fn = false)).
Proof.
  split; [|split; [|split]]; intros g fname inc w h fn w1 CF.
  - destruct (createFile_opened _ _ _ _ _ _ Main_creating CF) as (_ & X & _).
    destruct (X Main_exclusive) as [N S]. split.
    + intros FW.
      destruct (createNamedInc_fails Main.fileCreate Main.defByte (Main.name g)
                  (Main.once g) Main_creating fname inc h fn w w1 CF FW)
        as (w' & d & H & _ & F).
      exists w'. rewrite S in F. rewrite delete_id in F by exact N.
      split; [exact H|]. split; [now rewrite F|exact F].
    + intros e w' H.
      destruct (createNamedInc_Err_opened Main.fileCreate Main.defByte
                  (Main.name g) (Main.once g) Main_creating fname inc h fn w w1
                  e w' CF H) as (-> & _ & F).
      rewrite S in F. rewrite delete_id in F by exact N.
      split; [reflexivity|]. split; [now rewrite F|exact F].
  - destruct (createFile_opened _ _ _ _ _ _ Main_creating CF) as (_ & X & _).
    destruct (X Main_exclusive) as [N S]. split.
    + intros FW.
      destruct (createNamedSrc_fails Main.fileCreate (Main.name g)
                  Main_creating fname inc h fn w w1 CF FW)
        as (w' & d & H & _ & F).
      exists w'. rewrite S in F. rewrite delete_id in F by exact N.
      split; [exact H|]. split; [now rewrite F|exact F].
    + intros e w' H.
      destruct (createNamedSrc_Err_opened Main.fileCreate (Main.name g)
                  Main_creating fname inc h fn w w1 e w' CF H) as (-> & _ & F).
      rewrite S in F. rewrite delete_id in F by exact N.
      split; [reflexivity|]. split; [now rewrite F|exact F].
  - destruct (createFile_opened _ _ _ _ _ _ Part000_creating CF) as (_ & _ & S).
    split; [|split; [|exact S]].
    + intros FW.
      destruct (createNamedInc_fails Part000.fileCreate Part000.defByte
                  (Part000.name g) (Part000.once g) Part000_creating fname inc
                  h fn w w1 CF FW) as (w' & d & H & P & F).
      exists w'. split; [exact H|]. split; intros R; rewrite R in F.
      * split; [|exact F]. rewrite F. apply lookup_delete_eq.
      * exists d. split; [|exact P]. rewrite F. apply lookup_insert_eq.
    + intros e w' H.
      destruct (createNamedInc_Err_opened Part000.fileCreate Part000.defByte
                  (Part000.name g) (Part000.once g) Part000_creating fname inc
                  h fn w w1 e w' CF H) as (-> & _ & F).
      split; [reflexivity|]. intros R. rewrite R in F.
      split; [|exact F]. rewrite F. apply lookup_delete_eq.
  - destruct (createFile_opened _ _ _ _ _ _ Part000_creating CF) as (_ & _ & S).
    split; [|split; [|exact S]].
    + intros FW.
      destruct (createNamedSrc_fails Part000.fileCreate (Part000.name g)
                  Part000_creating fname inc h fn w w1 CF FW)
        as (w' & d & H & P & F).
      exists w'. split; [exact H|]. split; intros R; rewrite R in F.
      * split; [|exact F]. rewrite F. apply lookup_delete_eq.
      * exists d. split; [|exact P]. rewrite F. apply lookup_insert_eq.
    + intros e w' H.
      destruct (createNamedSrc_Err_opened Part000.fileCreate (Part000.name g)
                  Part000_creating fname inc h fn w w1 e w' CF H)
        as (-> & _ & F).
      split; [reflexivity|]. intros R. rewrite R in F.
      split; [|exact F]. rewrite F. apply lookup_delete_eq.
Qed.

Lemma failed_write_witness :
  Main.createFile "pub_types.h" w_disk_full
  = (Ok ("/w/pub_types.h", "/w/pub_types.h"),
     set_files (insert "/w/pub_types.h" "") w_disk_full) /\
  fails_within (inc_writes (Main.once g_plain) ["pub_consts.h"])
    (wfaults w_disk_full) = true /\
  exists w',
    Main.createNamedInc g_plain "pub_types.h" ["pub_consts.h"] w_disk_full
    = (Err EIO, w') /\
    files w' !! "/w/pub_types.h" = None /\ files w' = files w_disk_full.
Proof.
  split; [reflexivity|]. split; [reflexivity|].
  eapply (proj1 (proj1 failed_write_leaves_no_file g_plain "pub_types.h"
                   ["pub_consts.h"] w_disk_full _ _ _ eq_refl)).
  reflexivity.
Defined.

(** C2 fails on [src/unnamed/part_000] where the file was there before and
    cannot be removed: in a directory that may not be written, with
    [pub_consts.h] present, the file is opened and emptied, the first write
    fails after three bytes, the call returns the write error, and the file
    remains with those three bytes. *)
Lemma part000_failed_write_leaves_file :
  files w_stuck_full !! "/w/pub_consts.h" = Some "keep" /\
  Part000.createFile "pub_consts.h" w_stuck_full
  = (Ok ("/w/pub_consts.h", "/w/pub_consts.h"),
     set_files (insert "/w/pub_consts.h" "") w_stuck_full) /\
  fails_within (inc_writes (Part000.once h_plain) []) (wfaults w_stuck_full)
  = true /\
  (Part000.createNamedInc h_plain "pub_consts.h" [] w_stuck_full).1
  = Err EIO /\
  files (Part000.createNamedInc h_plain "pub_consts.h" [] w_stuck_full).2
    !! "/w/pub_consts.h" = Some "#if".
Proof. repeat split; vm_compute; reflexivity. Qed.

(** ** The text of an include file (C7) *)

(** C7. When [createNamedInc] of [src/main.go] succeeds for the file
    [iname] with the dependency list [D], the file holds, in this order: in
    once-guard mode the pragma line and a blank line; the two lines of the
    guard, whose token is [defName iname]; a blank line; one include
    directive for every element of [D], in order, naming [includeName] of
    the element; a blank line if and only if [D] is not empty; the closing
    line of the guard. It succeeds whenever the path resolves, nothing is
    there, opening is not refused and no write fails. *)
Theorem include_file_layout (g : Main.globals) (iname : string)
    (D : list string) (w : world) :
  (forall u w',
     Main.createNamedInc g iname D w = (Ok u, w') ->
     read_file w' iname
     = Some (unlines (guarded_lines (Main.once g) (Main.defName g iname)
                        (Main.includeName g <$> D)))) /\
  (forall fn,
     abs w (ToLower iname) = Some fn -> denied w fn = false ->
     files w !! fn = None -> wfaults w = [] ->
     Main.createNamedInc g iname D w
     = (Ok tt,
        set_files
          (insert fn
             (unlines (guarded_lines (Main.once g) (Main.defName g iname)
                         (Main.includeName g <$> D)))) w)).
Proof.
  unfold Main.defName. rewrite defName_guard. split.
  - intros u w' H.
    apply createNamedInc_Ok in H as (fn & A & _ & _ & F & E);
      [|apply Main_creating].
    eapply read_after_insert; eauto.
  - intros fn A Dn F W.
    apply createNamedInc_clean; auto using Main_creating.
Qed.

Lemma include_file_layout_witness :
  Main.createNamedInc g_foo_once "pub_types.h" ["pub_consts.h"]
    (dir_world "/w" ∅)
  = (Ok tt,
     set_files
       (insert "/w/pub_types.h"
          (unlines ["#pragma once"; "";
                    "#ifndef __FOO_PUB_TYPES_H__";
                    "#define __FOO_PUB_TYPES_H__"; "";
                    include_directive "foo/pub_consts.h"; "";
                    "#endif //__FOO_PUB_TYPES_H__"]))
       (dir_world "/w" ∅)).
Proof.
  apply (proj2 (include_file_layout g_foo_once "pub_types.h" ["pub_consts.h"]
                  (dir_world "/w" ∅)) "/w/pub_types.h"); reflexivity.
Defined.

(** ** The text of a source file (C10) *)

(** C10. In both programs, when [createNamedSrc] succeeds for the
    dependency list [D], the file holds one include directive for every
    element of [D] and nothing else: no guard, no pragma. The function reads
    the module name only, so the once-guard flag and the other flags have no
    effect on it. *)
Theorem source_file_is_includes_only :
  (forall g sname D w u w',
     Main.createNamedSrc g sname D w = (Ok u, w') ->
     read_file w' sname
     = Some (unlines (include_directive <$> (Main.includeName g <$> D)))) /\
  (forall g g', Main.name g = Main.name g' ->
     Main.createNamedSrc g = Main.createNamedSrc g') /\
  (forall g sname D w u w',
     Part000.createNamedSrc g sname D w = (Ok u, w') ->
     read_file w' sname
     = Some (unlines (include_directive <$> (Part000.includeName g <$> D)))) /\
  (forall g g', Part000.name g = Part000.name g' ->
     Part000.createNamedSrc g = Part000.createNamedSrc g').
Proof.
  split; [|split; [|split]].
  - intros g sname D w u w' H.
    apply createNamedSrc_Ok in H as (fn & A & _ & _ & F & E);
      [|apply Main_creating].
    eapply read_after_insert; eauto.
  - intros g g' H. unfold Main.createNamedSrc. now rewrite H.
  - intros g sname D w u w' H.
    apply createNamedSrc_Ok in H as (fn & A & _ & _ & F & E);
      [|apply Part000_creating].
    eapply read_after_insert; eauto.
  - intros g g' H. unfold Part000.createNamedSrc. now rewrite H.
Qed.

Lemma source_file_witness :
  Main.createNamedSrc g_foo_once "foo.c" ["priv_inlines.h"] (dir_world "/w" ∅)
  = (Ok tt,
     set_files (insert "/w/foo.c" (include_directive "foo/priv_inlines.h" +:+ nl))
       (dir_world "/w" ∅)) /\
  read_file
    (set_files (insert "/w/foo.c" (include_directive "foo/priv_inlines.h" +:+ nl))
       (dir_world "/w" ∅)) "foo.c"
  = Some (unlines [include_directive "foo/priv_inlines.h"]).
Proof.
  split; [reflexivity|].
  apply (proj1 source_file_is_includes_only g_foo_once "foo.c"
           ["priv_inlines.h"] (dir_world "/w" ∅) tt).
  reflexivity.
Defined.

(** ** Guard tokens (C6, C4) *)

Lemma string_map_ext (f g : ascii -> ascii) (s : string) :
  (forall b, f b = g b) -> string_map f s = string_map g s.
Proof. intros E. induction s as [|b s IH]; cbn; [easy|]. now rewrite E, IH. Qed.

Ltac each_byte b :=
  destruct b as [[] [] [] [] [] [] [] []]; vm_compute; try reflexivity.

Lemma Main_defByte_rule (b : ascii) : Main.defByte b = rule_digits_kept b.
Proof. each_byte b. Qed.

Lemma Part000_defByte_rule (b : ascii) :
  Part000.defByte b = rule_digits_replaced b.
Proof. each_byte b. Qed.

Lemma Main_defName_rule g iname :
  Main.defName g iname = guard_of rule_digits_kept (Main.includeName g iname).
Proof.
  unfold Main.defName, Main.includeName.
  rewrite defName_guard. unfold guard_of.
  now rewrite (string_map_ext _ _ _ Main_defByte_rule).
Qed.

Lemma Part000_defName_rule g iname :
  Part000.defName g iname
  = guard_of rule_digits_replaced (Part000.includeName g iname).
Proof.
  unfold Part000.defName, Part000.includeName.
  rewrite defName_guard. unfold guard_of.
  now rewrite (string_map_ext _ _ _ Part000_defByte_rule).
Qed.

(** C6. The guard token of [src/main.go] is the qualified include path
    with every byte mapped by one rule, between two underscores on each
    side: digits and upper-case letters are kept, lower-case letters are
    upper-cased, every other byte becomes an underscore. The token of
    [src/unnamed/part_000] is built the same way with the rule that, in
    addition, turns digits into underscores. *)
Theorem guard_byte_rules :
  (forall g iname,
     Main.defName g iname
     = guard_of rule_digits_kept (Main.includeName g iname)) /\
  (forall g iname,
     Part000.defName g iname
     = guard_of rule_digits_replaced (Part000.includeName g iname)) /\
  (forall b,
     rule_digits_replaced b
     = if is_digit b then "_"%char else rule_digits_kept b).
Proof.
  split; [exact Main_defName_rule|]. split; [exact Part000_defName_rule|].
  intros b. each_byte b.
Qed.

Lemma leading_underscore_cons (l : list ascii) :
  leading_underscores ("_"%char :: l) = S (leading_underscores l).
Proof. reflexivity. Qed.

Section GuardShape.

Variable rule : ascii -> ascii.
Variable kept : ascii -> bool.
Hypothesis rule_underscore : forall b, rule b = "_"%char <-> kept b = false.
Hypothesis rule_not_lower : forall b, is_lower (rule b) = false.
Hypothesis kept_c : kept "c" = true.
Hypothesis kept_h : kept "h" = true.

Lemma leading_kept (b : ascii) (l : list ascii) :
  kept b = true -> leading_underscores (rule b :: l) = 0%nat.
Proof.
  intros K. cbn. destruct (ascii_dec (rule b) "_") as [E|]; [|reflexivity].
  apply rule_underscore in E. congruence.
Qed.

Lemma guard_bytes (path : string) :
  bytes (guard_of rule path)
  = ["_"; "_"]%char ++ (rule <$> bytes path) ++ ["_"; "_"]%char.
Proof.
  unfold guard_of. now rewrite !bytes_app, bytes_string_map.
Qed.

Lemma guard_no_lower (path : string) :
  Forall (fun b => is_lower b = false) (bytes (guard_of rule path)).
Proof.
  rewrite guard_bytes. repeat apply Forall_app_2.
  - repeat constructor.
  - apply Forall_fmap, Forall_forall. intros b _. apply rule_not_lower.
  - repeat constructor.
Qed.

Lemma guard_leading_ge (path : string) :
  (2 <= leading (guard_of rule path))%nat.
Proof. unfold leading. rewrite guard_bytes. cbn. lia. Qed.

Lemma guard_leading_first (b : ascii) (rest : string) :
  leading (guard_of rule (String b rest)) = 2%nat <-> kept b = true.
Proof.
  unfold leading. rewrite guard_bytes.
  change (bytes (String b rest)) with (b :: bytes rest).
  cbn [fmap list_fmap app leading_underscores].
  destruct (ascii_dec "_" "_") as [_|N]; [|now destruct N].
  destruct (ascii_dec (rule b) "_") as [E|E].
  - apply rule_underscore in E. rewrite E. split; [lia|discriminate].
  - split; [|reflexivity]. intros _.
    destruct (kept b) eqn:K; [reflexivity|].
    apply rule_underscore in K. contradiction.
Qed.

Lemma guard_trailing_h (front : string) :
  trailing (guard_of rule (front +:+ "consts.h")) = 2%nat.
Proof.
  unfold trailing. rewrite guard_bytes, bytes_app, fmap_app.
  rewrite !rev_app_distr.
  change (bytes "consts.h") with (bytes "consts." ++ ["h"%char]).
  rewrite fmap_app, rev_app_distr.
  cbn [rev app fmap list_fmap].
  rewrite !leading_underscore_cons. now rewrite leading_kept.
Qed.

(** The guard token of "consts.h" for the module name [N]. *)
Lemma consts_guard_shape (N : string) :
  let t := guard_of rule (Writer.includeName N "consts.h") in
  Forall (fun b => is_lower b = false) (bytes t) /\
  trailing t = 2%nat /\
  (2 <= leading t)%nat /\
  (leading t = 2%nat <->
     N = "" \/ match N with String b _ => kept b = true | _ => False end).
Proof.
  intros t. subst t.
  split; [apply guard_no_lower|]. split; [|split; [apply guard_leading_ge|]].
  - unfold Writer.includeName. destruct N as [|b N]; cbn [len String.length Nat.eqb].
    + apply (guard_trailing_h "").
    + rewrite <- sapp_assoc. apply guard_trailing_h.
  - unfold Writer.includeName. destruct N as [|b N]; cbn [len String.length Nat.eqb].
    + split; [auto|]. intros _.
      apply (guard_leading_first "c" "onsts.h"), kept_c.
    + rewrite sapp_cons, guard_leading_first.
      split; [auto|]. now intros [|].
Qed.

End GuardShape.

Lemma rule_digits_kept_underscore (b : ascii) :
  rule_digits_kept b = "_"%char
  <-> is_digit b || is_upper b || is_lower b = false.
Proof. each_byte b; split; intros H; try reflexivity; discriminate H. Qed.

Lemma rule_digits_replaced_underscore (b : ascii) :
  rule_digits_replaced b = "_"%char <-> is_upper b || is_lower b = false.
Proof. each_byte b; split; intros H; try reflexivity; discriminate H. Qed.

Lemma rule_digits_kept_not_lower (b : ascii) :
  is_lower (rule_digits_kept b) = false.
Proof. each_byte b. Qed.

Lemma rule_digits_replaced_not_lower (b : ascii) :
  is_lower (rule_digits_replaced b) = false.
Proof. each_byte b. Qed.

(** C4, as the programs have it. For every module name the guard token of
    "consts.h" depends on the name only, holds no lower-case letter, ends
    with exactly two underscores and starts with at least two. It starts
    with exactly two if and only if the name is empty or its first byte is a
    letter or, in [src/main.go], a digit; otherwise the first byte of the
    name is itself turned into an underscore. *)
Theorem consts_guard_token :
  (forall g,
     let t := Main.defName g "consts.h" in
     Forall (fun b => is_lower b = false) (bytes t) /\
     trailing t = 2%nat /\ (2 <= leading t)%nat /\
     (leading t = 2%nat
      <-> Main.name g = "" \/ starts_alnum (Main.name g) = true)) /\
  (forall g g', Main.name g = Main.name g' ->
     Main.defName g "consts.h" = Main.defName g' "consts.h") /\
  (forall g,
     let t := Part000.defName g "consts.h" in
     Forall (fun b => is_lower b = false) (bytes t) /\
     trailing t = 2%nat /\ (2 <= leading t)%nat /\
     (leading t = 2%nat
      <-> Part000.name g = "" \/ starts_letter (Part000.name g) = true)) /\
  (forall g g', Part000.name g = Part000.name g' ->
     Part000.defName g "consts.h" = Part000.defName g' "consts.h").
Proof.
  split; [|split; [|split]].
  - intros g t. subst t. rewrite Main_defName_rule. unfold Main.includeName.
    destruct (consts_guard_shape rule_digits_kept
                (fun b => is_digit b || is_upper b || is_lower b)
                rule_digits_kept_underscore rule_digits_kept_not_lower
                eq_refl eq_refl (Main.name g)) as (A & B & C & D).
    repeat split; auto.
    + intros L. apply D in L as [L|L]; [now left|right].
      now destruct (Main.name g).
    + intros L. apply D. destruct L as [L|L]; [now left|right].
      now destruct (Main.name g).
  - intros g g' E. unfold Main.defName. now rewrite E.
  - intros g t. subst t. rewrite Part000_defName_rule.
    unfold Part000.includeName.
    destruct (consts_guard_shape rule_digits_replaced
                (fun b => is_upper b || is_lower b)
                rule_digits_replaced_underscore rule_digits_replaced_not_lower
                eq_refl eq_refl (Part000.name g)) as (A & B & C & D).
    repeat split; auto.
    + intros L. apply D in L as [L|L]; [now left|right].
      now destruct (Part000.name g).
    + intros L. apply D. destruct L as [L|L]; [now left|right].
      now destruct (Part000.name g).
  - intros g g' E. unfold Part000.defName. now rewrite E.
Qed.

Lemma consts_guard_token_witness :
  starts_alnum (Main.name g_foo) = true /\
  leading (Main.defName g_foo "consts.h") = 2%nat /\
  Main.name g_foo_once = Main.name g_foo /\
  Main.defName g_foo_once "consts.h" = Main.defName g_foo "consts.h".
Proof.
  split; [reflexivity|]. split; [|split; [reflexivity|]].
  - apply (proj1 consts_guard_token g_foo). right. reflexivity.
  - apply (proj1 (proj2 consts_guard_token) g_foo_once g_foo). reflexivity.
Defined.

(** C4 fails for the module name [_x]: the token starts with three
    underscores. *)
Lemma consts_guard_three_leading_underscores :
  Main.defName g_underscore "consts.h" = "___X_CONSTS_H__" /\
  leading (Main.defName g_underscore "consts.h") = 3%nat /\
  leading (Main.defName g_underscore "consts.h") <> 2%nat.
Proof. repeat split; vm_compute; congruence. Qed.

(** ** Plans *)

Lemma bind_ret_r (m : io unit) (w : world) : bind m (fun _ => ret tt) w = m w.
Proof. unfold bind, ret. now destruct (m w) as [[[]|e] w']. Qed.

Lemma bind_assoc {A B C} (m : io A) (k : A -> io B) (h : B -> io C) w :
  bind (bind m k) h w = bind m (fun a => bind (k a) h) w.
Proof. unfold bind. now destruct (m w) as [[a|e] w']. Qed.

Lemma bind_ext {A B} (m m' : io A) (k k' : A -> io B) w :
  (forall s, m s = m' s) -> (forall a s, k a s = k' a s) ->
  bind m k w = bind m' k' w.
Proof.
  intros Hm Hk. unfold bind. rewrite Hm.
  destruct (m' w) as [[a|e] w']; [apply Hk|reflexivity].
Qed.

Section PlanFacts.

Variable fileCreate : Z.
Variable defByte : ascii -> ascii.
Variable name : string.
Variable once : bool.
Hypothesis creates : creating fileCreate.

Let createf := create fileCreate defByte name once.
Let run := run_plan fileCreate defByte name once.
Let text := text_of defByte name once.

Lemma run_plan_app (l1 l2 : list file_spec) (w : world) :
  run (l1 ++ l2) w = bind (run l1) (fun _ => run l2) w.
Proof.
  revert w. induction l1 as [|f l1 IH]; intros w; [reflexivity|].
  cbn [app]. unfold run in *. cbn [run_plan].
  rewrite bind_assoc. apply bind_ext; auto.
Qed.

Lemma create_Ok f u w w' :
  createf f w = (Ok u, w') ->
  exists fn,
    abs w (ToLower (fs_name f)) = Some fn /\ denied w fn = false /\
    (exclusive fileCreate = true -> files w !! fn = None) /\
    files w' = <[fn := text f]> (files w) /\ same_env w w'.
Proof.
  unfold createf, create, text, text_of.
  destruct (fs_kind f).
  - now apply createNamedInc_Ok.
  - now apply createNamedSrc_Ok.
Qed.

Lemma create_clean f fn w :
  abs w (ToLower (fs_name f)) = Some fn -> denied w fn = false ->
  files w !! fn = None \/ exclusive fileCreate = false ->
  wfaults w = [] ->
  createf f w = (Ok tt, set_files (insert fn (text f)) w).
Proof.
  unfold createf, create, text, text_of.
  destruct (fs_kind f).
  - now apply createNamedInc_clean.
  - now apply createNamedSrc_clean.
Qed.

(** A plan that succeeded, under exclusive creation: every planned file
    holds its text, what existed is as it was, and the number of files
    grew by the length of the plan. *)
Lemma run_plan_Ok (steps : list file_spec) :
  exclusive fileCreate = true ->
  forall u w w',
    run steps w = (Ok u, w') ->
    (forall f, f ∈ steps -> read_file w' (fs_name f) = Some (text f)) /\
    files w ⊆ files w' /\ same_env w w' /\
    size (files w') = (size (files w) + length steps)%nat.
Proof.
  intros X. induction steps as [|f steps IH]; intros u w w' H.
  - injection H as _ <-. split; [|split; [|split]].
    + intros f I. inversion I.
    + reflexivity.
    + apply same_env_refl.
    + cbn. lia.
  - unfold run in H. cbn [run_plan] in H. fold createf in H. fold run in H.
    apply bind_Ok in H as (a & w1 & S & H).
    apply create_Ok in S as (fn & A & _ & FR & F & E).
    specialize (FR X).
    apply IH in H as (R & SUB & E' & SZ).
    assert (SUB1 : files w ⊆ files w1)
      by (rewrite F; now apply insert_subseteq).
    split; [|split; [|split]].
    + intros f' I. apply elem_of_cons in I as [->|I]; [|now apply R].
      unfold read_file.
      rewrite (same_env_abs _ _ E'), (same_env_abs _ _ E).
      rewrite A. eapply lookup_weaken; [|exact SUB].
      rewrite F. apply lookup_insert_eq.
    + now transitivity (files w1).
    + apply (same_env_trans _ _ _ E E').
    + rewrite SZ, F, map_size_insert_None by exact FR. cbn. lia.
Qed.

(** Plans in any world: what a plan that succeeded has written, whatever
    the flags of creation. *)
Lemma put_file_same (w w' : world) :
  same_env w w' -> put_file w' text = put_file w text.
Proof.
  intros E. unfold put_file, resolve. now rewrite (same_env_abs _ _ E).
Qed.

Lemma denied_refused (w : world) (fn : string) :
  denied w fn = false -> refused w fn = false.
Proof. unfold denied. now intros [H _]%orb_false_iff. Qed.

Lemma run_plan_Ok_files (steps : list file_spec) :
  forall u w w',
    run steps w = (Ok u, w') ->
    files w' = foldl (put_file w text) (files w) steps /\ same_env w w' /\
    (forall f, f ∈ steps ->
       exists fn, resolve w f = Some fn /\ refused w fn = false).
Proof.
  induction steps as [|f steps IH]; intros u w w' H.
  - injection H as _ <-. split; [reflexivity|]. split; [apply same_env_refl|].
    intros f I. inversion I.
  - unfold run in H. cbn [run_plan] in H. fold createf in H. fold run in H.
    apply bind_Ok in H as (a & w1 & S & H).
    apply create_Ok in S as (fn & A & D & _ & F & E).
    apply IH in H as (F' & E' & R).
    split; [|split].
    + rewrite F', (put_file_same w w1 E), F. cbn [foldl].
      replace (put_file w text (files w) f) with (<[fn := text f]> (files w));
        [reflexivity|].
      unfold put_file, resolve. now rewrite A.
    + apply (same_env_trans _ _ _ E E').
    + intros f' I. apply elem_of_cons in I as [->|I].
      * exists fn. split; [exact A|]. now apply denied_refused.
      * destruct (R f' I) as (fn' & A' & R').
        exists fn'. unfold resolve in *.
        rewrite <- (same_env_abs _ _ E). split; [exact A'|].
        destruct E as (<- & _). exact R'.
Qed.

Lemma plan_put_other (w : world) (steps : list file_spec) :
  forall (m : gmap string string) k,
    (forall f, f ∈ steps -> resolve w f <> Some k) ->
    foldl (put_file w text) m steps !! k = m !! k.
Proof.
  induction steps as [|f steps IH]; intros m k NE; [reflexivity|].
  cbn [foldl]. rewrite IH by (intros f' I; apply NE; now right).
  unfold put_file. destruct (resolve w f) as [fn|] eqn:A; [|reflexivity].
  apply lookup_insert_ne. intros ->. apply (NE f); [left|exact A].
Qed.

Lemma plan_put_lookup (w : world) (steps : list file_spec) :
  forall (m : gmap string string) f fn,
    NoDup (resolve w <$> steps) -> f ∈ steps -> resolve w f = Some fn ->
    foldl (put_file w text) m steps !! fn = Some (text f).
Proof.
  induction steps as [|f0 steps IH]; intros m f fn ND I A; [inversion I|].
  cbn [fmap list_fmap] in ND. apply NoDup_cons in ND as [NI ND].
  cbn [foldl]. apply elem_of_cons in I as [->|I]; [|now apply IH].
  rewrite plan_put_other.
  - unfold put_file. rewrite A. apply lookup_insert_eq.
  - intros f' I E. apply NI. rewrite A, <- E. now apply list_elem_of_fmap_2.
Qed.

Lemma plan_put_planned (w : world) (steps : list file_spec) :
  forall (m m' : gmap string string) k,
    Some k ∈ resolve w <$> steps ->
    foldl (put_file w text) m steps !! k
    = foldl (put_file w text) m' steps !! k.
Proof.
  induction steps as [|f steps IH]; intros m m' k I; [inversion I|].
  cbn [foldl].
  destruct (decide (Some k ∈ resolve w <$> steps)) as [I'|NI];
    [now apply IH|].
  assert (O : forall f', f' ∈ steps -> resolve w f' <> Some k).
  { intros f' I' E. apply NI. rewrite <- E. now apply list_elem_of_fmap_2. }
  rewrite !plan_put_other by exact O.
  cbn [fmap list_fmap] in I. apply elem_of_cons in I as [E|I]; [|contradiction].
  unfold put_file. rewrite <- E. now rewrite !lookup_insert_eq.
Qed.

Lemma plan_put_last (w : world) (steps : list file_spec) :
  forall (m : gmap string string) f fn,
    f ∈ steps -> resolve w f = Some fn ->
    exists f', f' ∈ steps /\ resolve w f' = Some fn /\
      foldl (put_file w text) m steps !! fn = Some (text f').
Proof.
  induction steps as [|f0 steps IH] using rev_ind; intros m f fn I A;
    [inversion I|].
  rewrite foldl_app. cbn [foldl].
  destruct (decide (resolve w f0 = Some fn)) as [E|NE].
  - exists f0. split; [apply elem_of_app; right; left|].
    split; [exact E|]. unfold put_file. rewrite E. apply lookup_insert_eq.
  - apply elem_of_app in I as [I|I].
    + destruct (IH m f fn I A) as (f' & I' & A' & L).
      exists f'. split; [apply elem_of_app; now left|].
      split; [exact A'|]. unfold put_file at 1.
      destruct (resolve w f0) as [fn0|]; [|exact L].
      rewrite lookup_insert_ne; [exact L|]. intros ->. now apply NE.
    + apply list_elem_of_singleton in I. subst f0. contradiction.
Qed.

(** Writing a plan over what it has written changes nothing. *)
Lemma plan_put_twice (w : world) (steps : list file_spec)
    (m : gmap string string) :
  foldl (put_file w text) (foldl (put_file w text) m steps) steps
  = foldl (put_file w text) m steps.
Proof.
  apply map_eq. intros k.
  destruct (decide (Some k ∈ resolve w <$> steps)) as [I|NI].
  - now apply plan_put_planned.
  - apply plan_put_other. intros f I E. apply NI. rewrite <- E.
    now apply list_elem_of_fmap_2.
Qed.

Lemma plan_put_size (w : world) (steps : list file_spec) :
  forall (m : gmap string string),
    NoDup (resolve w <$> steps) ->
    (forall f, f ∈ steps -> exists fn, resolve w f = Some fn /\ m !! fn = None) ->
    size (foldl (put_file w text) m steps) = (size m + length steps)%nat.
Proof.
  induction steps as [|f steps IH]; intros m ND FR; [cbn; lia|].
  cbn [fmap list_fmap] in ND. apply NoDup_cons in ND as [NI ND].
  cbn [foldl]. destruct (FR f) as (fn & A & N); [left|].
  rewrite IH; [|exact ND|].
  - unfold put_file. rewrite A, map_size_insert_None by exact N. cbn. lia.
  - intros f' I. destruct (FR f') as (fn' & A' & N'); [now right|].
    exists fn'. split; [exact A'|]. unfold put_file. rewrite A.
    rewrite lookup_insert_ne; [exact N'|]. intros ->.
    apply NI. rewrite A, <- A'. now apply list_elem_of_fmap_2.
Qed.

(** A plan that succeeded and whose files resolve to different paths has
    left every planned file with its text. *)
Lemma run_plan_reads (steps : list file_spec) u w w' f :
  run steps w = (Ok u, w') -> NoDup (resolve w <$> steps) -> f ∈ steps ->
  read_file w' (fs_name f) = Some (text f).
Proof.
  intros H ND I. apply run_plan_Ok_files in H as (F & E & R).
  destruct (R f I) as (fn & A & _).
  unfold read_file. rewrite (same_env_abs _ _ E).
  unfold resolve in A. rewrite A, F. now apply plan_put_lookup.
Qed.

(** A plan runs to its end when no write fails, every file resolves to a
    path that is not refused and, under exclusive creation, the paths are
    different and free. *)
Lemma run_plan_clean (steps : list file_spec) :
  forall w,
    wfaults w = [] ->
    (forall f, f ∈ steps ->
       exists fn, resolve w f = Some fn /\ denied w fn = false) ->
    (exclusive fileCreate = true ->
     NoDup (resolve w <$> steps) /\
     forall f fn, f ∈ steps -> resolve w f = Some fn -> files w !! fn = None) ->
    run steps w
    = (Ok tt, set_files (fun fs => foldl (put_file w text) fs steps) w).
Proof.
  induction steps as [|f steps IH]; intros w W OK X.
  - cbn. f_equal. now destruct w.
  - unfold run. cbn [run_plan]. fold createf. fold run.
    destruct (OK f) as (fn & A & D); [left|].
    erewrite bind_step.
    2:{ apply (create_clean f fn); [exact A | exact D | | exact W].
        destruct (exclusive fileCreate) eqn:EX; [left|now right].
        destruct (X eq_refl) as [_ FR]. apply (FR f); [left|exact A]. }
    rewrite IH.
    + f_equal. unfold set_files. cbn [files refused stuck wfaults wd abs foldl].
      replace (put_file w text (files w) f) with (<[fn := text f]> (files w))
        by (unfold put_file; now rewrite A).
      reflexivity.
    + exact W.
    + intros f' I. destruct (OK f') as (fn' & A' & D'); [now right|].
      exists fn'. split; [exact A'|].
      apply (denied_mono w); [now unfold same_env| |exact D'].
      cbn [files set_files]. intros [c L].
      destruct (decide (fn = fn')) as [->|NE].
      * rewrite lookup_insert_eq. eauto.
      * rewrite lookup_insert_ne by exact NE. eauto.
    + intros EX. destruct (X EX) as [ND FR].
      cbn [fmap list_fmap] in ND. apply NoDup_cons in ND as [NI ND].
      split; [exact ND|]. intros f' fn' I A'. cbn [files set_files].
      rewrite lookup_insert_ne; [apply (FR f'); [now right|exact A']|].
      intros ->. apply NI. rewrite A.
      change (resolve w f' = Some fn') in A'. rewrite <- A'.
      now apply list_elem_of_fmap_2.
Qed.

End PlanFacts.

(** ** The plan of [main] *)

Lemma createIncs_plan g first w :
  Main.createIncs g first w
  = run_plan Main.fileCreate Main.defByte (Main.name g) (Main.once g)
      (tier (Main.pfx g) first) w.
Proof.
  unfold Main.createIncs, tier. cbn [run_plan].
  apply bind_ext; [now destruct first|intros _ s].
  apply bind_ext; [reflexivity|intros _ s'].
  symmetry. apply bind_ret_r.
Qed.

Lemma generate_plan g w :
  Main.generate g w
  = run_plan Main.fileCreate Main.defByte (Main.name g) (Main.once g)
      (main_plan g) w.
Proof.
  unfold Main.generate, main_plan. rewrite run_plan_app.
  apply bind_ext; [apply createIncs_plan|intros _ s].
  destruct (Main.isPfxSet g).
  { cbn [run_plan]. apply bind_ext; [reflexivity|intros _ s'].
    symmetry. apply bind_ret_r. }
  rewrite run_plan_app. apply bind_ext.
  { intros s'. destruct (0 <? len (Main.name g))%nat; [|reflexivity].
    symmetry. apply bind_ret_r. }
  intros _ s'. destruct (Main.pub g); [reflexivity|]. cbv zeta.
  rewrite run_plan_app. apply bind_ext.
  { intros s''. apply (createIncs_plan (Main.set_pfx Main.pPriv g)). }
  intros _ s''. cbn [Main.name Main.set_pfx].
  destruct (0 <? len (Main.name g))%nat; [|reflexivity].
  symmetry. apply bind_ret_r.
Qed.

Lemma main_exit_zero fl w w' :
  Main.main fl w = (0, w') ->
  exists g,
    Main.checkFlags fl w = inr g /\
    run_plan Main.fileCreate Main.defByte (Main.name g) (Main.once g)
      (main_plan g) w = (Ok tt, w').
Proof.
  unfold Main.main. destruct (Main.checkFlags fl w) as [c|g]; [discriminate|].
  rewrite generate_plan.
  destruct (run_plan _ _ _ _ _ w) as [[[]|e] w1] eqn:R; [|discriminate].
  intros [= <-]. exists g. split; [reflexivity|exact R].
Qed.

(** A run where nothing stands in the way. *)
Lemma main_clean (fl : flags) (w : world) (g : Main.globals) :
  wfaults w = [] ->
  Main.checkFlags fl w = inr g ->
  (forall f, f ∈ main_plan g ->
     exists fn, resolve w f = Some fn /\ denied w fn = false /\
                files w !! fn = None) ->
  NoDup (resolve w <$> main_plan g) ->
  Main.main fl w
  = (0, set_files
          (fun fs =>
             foldl (put_file w (text_of Main.defByte (Main.name g) (Main.once g)))
               fs (main_plan g)) w).
Proof.
  intros W C FR ND. unfold Main.main. rewrite C, generate_plan.
  rewrite run_plan_clean; [reflexivity | apply Main_creating | exact W | |].
  - intros f I. destruct (FR f I) as (fn & A & D & _). eauto.
  - intros _. split; [exact ND|]. intros f fn I A.
    destruct (FR f I) as (fn' & A' & _ & N). congruence.
Qed.

(** ** The plan of [main] in [src/unnamed/part_000] *)

Lemma part000_generate_plan g w :
  Part000.generate g w
  = run_plan Part000.fileCreate Part000.defByte (Part000.name g)
      (Part000.once g) (part000_plan g) w.
Proof.
  unfold Part000.generate, part000_plan. cbn [app run_plan].
  do 8 (apply bind_ext; [reflexivity|intros _ ?]).
  destruct (len (Part000.name g) =? 0)%nat; [reflexivity|].
  cbn [run_plan]. apply bind_ext; [reflexivity|intros _ ?].
  symmetry. apply bind_ret_r.
Qed.

(** ** Runs in a directory (C3, C8) *)

Ltac no_dup_names := refine (bool_decide_unpack _ _); vm_compute; reflexivity.

(** Different names are different files of a directory. *)
Lemma dir_paths_NoDup (cwd : string) (names : list string) :
  NoDup names -> NoDup (Some <$> (in_dir cwd <$> names)).
Proof.
  intros ND. apply NoDup_fmap_2; [intros a b [= E]; exact E|].
  apply NoDup_fmap_2; [intros a b; apply in_dir_inj|exact ND].
Qed.

(** The run of [src/main.go] in the empty directory [cwd], for a command
    line whose plan has fixed names. *)
Ltac run_in_empty_dir fl g names :=
  rewrite (main_clean fl (dir_world _ ∅) g eq_refl eq_refl);
  [ reflexivity
  | intros f _; eexists; split; [reflexivity|];
    split; [reflexivity | apply lookup_empty]
  | apply (dir_paths_NoDup _ names); no_dup_names ].

Section Place.

Variable cwd : string.

Let put (m : gmap string string) (f : string * list string) :=
  <[in_dir cwd f.1 := unlines f.2]> m.

Lemma put_lookup_other tree : forall fs k,
  (forall f, f ∈ tree -> f.1 <> k) ->
  foldl put fs tree !! in_dir cwd k = fs !! in_dir cwd k.
Proof.
  induction tree as [|f tree IH]; intros fs k NE; [reflexivity|].
  cbn [foldl]. rewrite IH by (intros f' I; apply NE; now right).
  unfold put. apply lookup_insert_ne. intros E. apply in_dir_inj in E.
  apply (NE f); [left|exact E].
Qed.

Lemma put_lookup tree : forall fs n ls,
  NoDup tree.*1 -> (n, ls) ∈ tree ->
  foldl put fs tree !! in_dir cwd n = Some (unlines ls).
Proof.
  induction tree as [|f tree IH]; intros fs n ls ND I; [inversion I|].
  cbn [fmap list_fmap] in ND. apply NoDup_cons in ND as [NI ND].
  cbn [foldl]. apply elem_of_cons in I as [<-|I]; [|now apply IH].
  rewrite put_lookup_other; [apply lookup_insert_eq|].
  intros f' I E. apply NI. cbn. rewrite <- E.
  now apply list_elem_of_fmap_2.
Qed.

Lemma put_size tree : forall fs,
  NoDup tree.*1 -> (forall f, f ∈ tree -> fs !! in_dir cwd f.1 = None) ->
  size (foldl put fs tree) = (size fs + length tree)%nat.
Proof.
  induction tree as [|f tree IH]; intros fs ND FR; [cbn; lia|].
  cbn [fmap list_fmap] in ND. apply NoDup_cons in ND as [NI ND].
  cbn [foldl]. rewrite IH; [| exact ND |].
  - unfold put. rewrite map_size_insert_None by (apply FR; left). cbn. lia.
  - intros f' I. unfold put. rewrite lookup_insert_ne; [apply FR; now right|].
    intros E. apply in_dir_inj in E. apply NI. rewrite E.
    now apply list_elem_of_fmap_2.
Qed.

Lemma place_lookup tree n ls :
  NoDup tree.*1 -> (n, ls) ∈ tree ->
  place cwd tree !! in_dir cwd n = Some (unlines ls).
Proof. apply put_lookup. Qed.

Lemma place_size tree :
  NoDup tree.*1 -> size (place cwd tree) = length tree.
Proof.
  intros ND. unfold place. fold put.
  rewrite put_size; [reflexivity | exact ND |].
  intros f _. apply lookup_empty.
Qed.

End Place.

(** C3, as the program has it. [src/main.go] run with -name=foo and no
    other flag in an empty directory ends with status 0 and leaves exactly
    eight files: pub_consts.h, pub_types.h, pub_inlines.h, foo.h,
    priv_consts.h, priv_types.h, priv_inlines.h and foo.c, with the texts of
    [tree_foo]; priv_consts.h includes "foo/pub_inlines.h" and foo.c is the
    single line that includes "foo/priv_inlines.h". *)
Theorem run_name_foo (cwd : string) :
  Main.main flags_foo (dir_world cwd ∅)
  = (0, dir_world cwd (place cwd tree_foo)) /\
  size (place cwd tree_foo) = 8%nat /\
  place cwd tree_foo !! in_dir cwd "priv_consts.h"
  = Some (unlines ["#ifndef __FOO_PRIV_CONSTS_H__";
                   "#define __FOO_PRIV_CONSTS_H__"; "";
                   include_directive "foo/pub_inlines.h"; "";
                   "#endif //__FOO_PRIV_CONSTS_H__"]) /\
  place cwd tree_foo !! in_dir cwd "foo.c"
  = Some (include_directive "foo/priv_inlines.h" +:+ nl).
Proof.
  split; [|split; [|split]].
  - run_in_empty_dir flags_foo g_foo
      ["pub_consts.h"; "pub_types.h"; "pub_inlines.h"; "foo.h";
       "priv_consts.h"; "priv_types.h"; "priv_inlines.h"; "foo.c"].
  - rewrite place_size; [reflexivity | no_dup_names].
  - apply place_lookup; [no_dup_names | repeat constructor].
  - apply (place_lookup cwd tree_foo "foo.c"
             [include_directive "foo/priv_inlines.h"]);
      [no_dup_names | repeat constructor].
Qed.

(** C3 fails as it is worded: in the empty directory [/w] the run leaves
    eight files, not nine, and none of them is foo_consts.h, foo_types.h or
    foo_inlines.h. *)
Lemma run_name_foo_not_nine_files :
  size (files (Main.main flags_foo (dir_world "/w" ∅)).2) = 8%nat /\
  size (files (Main.main flags_foo (dir_world "/w" ∅)).2) <> 9%nat /\
  files (Main.main flags_foo (dir_world "/w" ∅)).2 !! "/w/foo_consts.h" = None /\
  files (Main.main flags_foo (dir_world "/w" ∅)).2 !! "/w/foo_types.h" = None /\
  files (Main.main flags_foo (dir_world "/w" ∅)).2 !! "/w/foo_inlines.h" = None.
Proof. repeat split; vm_compute; congruence. Qed.

(** C8. [src/main.go] run with -add=xxx and no other flag in an empty
    directory ends with status 0 and leaves exactly five files:
    xxx_consts.h, xxx_types.h, xxx_inlines.h, xxx.h and xxx.c, with the
    texts of [tree_xxx]: xxx.h includes "xxx_inlines.h", xxx.c is the single
    line that includes "xxx.h"; there is no pub_ or priv_ file and no file
    named after a module. *)
Theorem run_add_xxx (cwd : string) :
  Main.main flags_xxx (dir_world cwd ∅)
  = (0, dir_world cwd (place cwd tree_xxx)) /\
  size (place cwd tree_xxx) = 5%nat /\
  dom (place cwd tree_xxx)
  = list_to_set (in_dir cwd <$> ["xxx_consts.h"; "xxx_types.h";
                                 "xxx_inlines.h"; "xxx.h"; "xxx.c"]) /\
  place cwd tree_xxx !! in_dir cwd "xxx.h"
  = Some (unlines ["#ifndef __XXX_H__"; "#define __XXX_H__"; "";
                   include_directive "xxx_inlines.h"; "";
                   "#endif //__XXX_H__"]) /\
  place cwd tree_xxx !! in_dir cwd "xxx.c"
  = Some (include_directive "xxx.h" +:+ nl).
Proof.
  split; [|split; [|split; [|split]]].
  - run_in_empty_dir flags_xxx (Main.set_pfx "xxx" (Main.parsed flags_xxx))
      ["xxx_consts.h"; "xxx_types.h"; "xxx_inlines.h"; "xxx.h"; "xxx.c"].
  - rewrite place_size; [reflexivity | no_dup_names].
  - unfold place, tree_xxx.
    cbn [foldl fst snd fmap list_fmap list_to_set foldr].
    rewrite !dom_insert_L, dom_empty_L. apply set_eq. intros x.
    rewrite !elem_of_union, !elem_of_singleton. tauto.
  - apply place_lookup; [no_dup_names | repeat constructor].
  - apply (place_lookup cwd tree_xxx "xxx.c" [include_directive "xxx.h"]);
      [no_dup_names | repeat constructor].
Qed.

(** ** The two tiers (C5) *)

Lemma checkFlags_plain fl w g :
  f_add fl = None -> Main.checkFlags fl w = inr g ->
  Main.isPfxSet g = false /\ Main.pfx g = "pub" /\
  Main.pub g = default false (f_pub fl) /\
  Main.once g = default false (f_once fl).
Proof.
  destruct fl as [fname fdir fonce fpub fadd]. cbn [f_add]. intros ->.
  unfold Main.checkFlags, Main.parsed. cbn.
  destruct fname, fdir; cbn; try discriminate;
    try (destruct (wd w); [|discriminate]); intros [= <-]; easy.
Qed.

Lemma main_tier_files (fl : flags) (w w' : world) :
  f_add fl = None -> default false (f_pub fl) = false ->
  Main.main fl w = (0, w') ->
  exists g,
    Main.checkFlags fl w = inr g /\
    let text := inc_text Main.defByte (Main.name g) (Main.once g) in
    read_file w' "pub_consts.h" = Some (text "pub_consts.h" []) /\
    read_file w' "pub_types.h" = Some (text "pub_types.h" ["pub_consts.h"]) /\
    read_file w' "pub_inlines.h" = Some (text "pub_inlines.h" ["pub_types.h"]) /\
    read_file w' "priv_consts.h"
      = Some (text "priv_consts.h" ["pub_inlines.h"]) /\
    read_file w' "priv_types.h"
      = Some (text "priv_types.h" ["priv_consts.h"]) /\
    read_file w' "priv_inlines.h"
      = Some (text "priv_inlines.h" ["priv_types.h"]).
Proof.
  intros A P H. apply main_exit_zero in H as (g & C & R).
  exists g. split; [exact C|].
  apply (checkFlags_plain fl w g A) in C as (X & PF & PB & _).
  rewrite P in PB.
  apply run_plan_Ok in R as (RD & _);
    [|apply Main_creating|apply Main_exclusive].
  assert (T1 : forall f, f ∈ tier "pub" true -> f ∈ main_plan g).
  { intros f I. unfold main_plan. rewrite PF. apply elem_of_app. now left. }
  assert (T2 : forall f, f ∈ tier "priv" false -> f ∈ main_plan g).
  { intros f I. unfold main_plan. rewrite X, PB.
    apply elem_of_app. right. apply elem_of_app. right.
    apply elem_of_app. now left. }
  cbv zeta. repeat split.
  - apply (RD (FileSpec Include "pub_consts.h" [])), T1. repeat constructor.
  - apply (RD (FileSpec Include "pub_types.h" ["pub_consts.h"])), T1.
    repeat constructor.
  - apply (RD (FileSpec Include "pub_inlines.h" ["pub_types.h"])), T1.
    repeat constructor.
  - apply (RD (FileSpec Include "priv_consts.h" ["pub_inlines.h"])), T2.
    repeat constructor.
  - apply (RD (FileSpec Include "priv_types.h" ["priv_consts.h"])), T2.
    repeat constructor.
  - apply (RD (FileSpec Include "priv_inlines.h" ["priv_types.h"])), T2.
    repeat constructor.
Qed.

Lemma part000_exit_zero fl w w' :
  Part000.main fl w = (0, w') ->
  exists g,
    Part000.checkFlags fl w = inr g /\
    run_plan Part000.fileCreate Part000.defByte (Part000.name g)
      (Part000.once g) (part000_plan g) w = (Ok tt, w').
Proof.
  unfold Part000.main.
  destruct (Part000.checkFlags fl w) as [c|g]; [discriminate|].
  rewrite part000_generate_plan.
  destruct (run_plan _ _ _ _ _ w) as [[[]|e] w1] eqn:R; [|discriminate].
  intros [= <-]. exists g. split; [reflexivity|exact R].
Qed.

Lemma part000_tier_files (fl : flags) (g : Part000.globals) (w w' : world) :
  Part000.checkFlags fl w = inr g ->
  Part000.main fl w = (0, w') ->
  NoDup (resolve w <$> part000_plan g) ->
  let text := inc_text Part000.defByte (Part000.name g) (Part000.once g) in
  read_file w' "pub_consts.h" = Some (text "pub_consts.h" []) /\
  read_file w' "pub_types.h" = Some (text "pub_types.h" ["pub_consts.h"]) /\
  read_file w' "pub_inlines.h" = Some (text "pub_inlines.h" ["pub_types.h"]) /\
  read_file w' "pub_includes.h"
    = Some (text "pub_includes.h" ["pub_inlines.h"]) /\
  read_file w' "priv_consts.h"
    = Some (text "priv_consts.h" ["pub_includes.h"]) /\
  read_file w' "priv_types.h" = Some (text "priv_types.h" ["priv_consts.h"]) /\
  read_file w' "priv_inlines.h"
    = Some (text "priv_inlines.h" ["priv_types.h"]) /\
  read_file w' "priv_includes.h"
    = Some (text "priv_includes.h" ["priv_inlines.h"]).
Proof.
  intros C H ND text. apply part000_exit_zero in H as (g' & C' & R).
  rewrite C in C'. injection C' as <-.
  pose proof (fun f => run_plan_reads Part000.fileCreate Part000.defByte
                         (Part000.name g) (Part000.once g) Part000_creating
                         (part000_plan g) tt w w' f R ND) as RD.
  assert (T : forall f,
    f ∈ [ FileSpec Include Part000.pubConsts [];
          FileSpec Include Part000.pubTypes [Part000.pubConsts];
          FileSpec Include Part000.pubInlines [Part000.pubTypes];
          FileSpec Include Part000.pubIncludes [Part000.pubInlines];
          FileSpec Include Part000.privConsts [Part000.pubIncludes];
          FileSpec Include Part000.privTypes [Part000.privConsts];
          FileSpec Include Part000.privInlines [Part000.privTypes];
          FileSpec Include Part000.privIncludes [Part000.privInlines] ] ->
    f ∈ part000_plan g).
  { intros f I. unfold part000_plan. apply elem_of_app. now left. }
  repeat split.
  - apply (RD (FileSpec Include "pub_consts.h" [])), T. repeat constructor.
  - apply (RD (FileSpec Include "pub_types.h" ["pub_consts.h"])), T.
    repeat constructor.
  - apply (RD (FileSpec Include "pub_inlines.h" ["pub_types.h"])), T.
    repeat constructor.
  - apply (RD (FileSpec Include "pub_includes.h" ["pub_inlines.h"])), T.
    repeat constructor.
  - apply (RD (FileSpec Include "priv_consts.h" ["pub_includes.h"])), T.
    repeat constructor.
  - apply (RD (FileSpec Include "priv_types.h" ["priv_consts.h"])), T.
    repeat constructor.
  - apply (RD (FileSpec Include "priv_inlines.h" ["priv_types.h"])), T.
    repeat constructor.
  - apply (RD (FileSpec Include "priv_includes.h" ["priv_inlines.h"])), T.
    repeat constructor.
Qed.

(** C5, as the programs have it. In both programs the files of a tier form
    a chain, each including exactly the file before it and the first file of
    the public tier including nothing, and priv_consts.h is the one file of
    a tier that includes a file of the other tier: it includes the last file
    of the public tier and nothing else. In [src/main.go] (a run without
    -add and -pub that ends with status 0) that file is pub_inlines.h. In
    [src/unnamed/part_000], whose tiers have a fourth file, it is
    pub_includes.h; there this is what a run that ends with status 0 leaves
    when its files resolve to different paths: creation is not exclusive in
    that program, so a later file of the run that resolves to the path
    of a tier file is written over it. *)
Theorem tier_chain_and_bridge :
  (forall fl w w',
     f_add fl = None -> default false (f_pub fl) = false ->
     Main.main fl w = (0, w') ->
     exists g,
       Main.checkFlags fl w = inr g /\
       let text := inc_text Main.defByte (Main.name g) (Main.once g) in
       read_file w' "pub_consts.h" = Some (text "pub_consts.h" []) /\
       read_file w' "pub_types.h"
         = Some (text "pub_types.h" ["pub_consts.h"]) /\
       read_file w' "pub_inlines.h"
         = Some (text "pub_inlines.h" ["pub_types.h"]) /\
       read_file w' "priv_consts.h"
         = Some (text "priv_consts.h" ["pub_inlines.h"]) /\
       read_file w' "priv_types.h"
         = Some (text "priv_types.h" ["priv_consts.h"]) /\
       read_file w' "priv_inlines.h"
         = Some (text "priv_inlines.h" ["priv_types.h"])) /\
  (forall fl g w w',
     part000_flags fl ->
     Part000.checkFlags fl w = inr g ->
     Part000.main fl w = (0, w') ->
     NoDup (resolve w <$> part000_plan g) ->
     let text := inc_text Part000.defByte (Part000.name g) (Part000.once g) in
     read_file w' "pub_consts.h" = Some (text "pub_consts.h" []) /\
     read_file w' "pub_types.h" = Some (text "pub_types.h" ["pub_consts.h"]) /\
     read_file w' "pub_inlines.h"
       = Some (text "pub_inlines.h" ["pub_types.h"]) /\
     read_file w' "pub_includes.h"
       = Some (text "pub_includes.h" ["pub_inlines.h"]) /\
     read_file w' "priv_consts.h"
       = Some (text "priv_consts.h" ["pub_includes.h"]) /\
     read_file w' "priv_types.h"
       = Some (text "priv_types.h" ["priv_consts.h"]) /\
     read_file w' "priv_inlines.h"
       = Some (text "priv_inlines.h" ["priv_types.h"]) /\
     read_file w' "priv_includes.h"
       = Some (text "priv_includes.h" ["priv_inlines.h"])).
Proof.
  split.
  - exact main_tier_files.
  - intros fl g w w' _. apply part000_tier_files.
Qed.

Lemma tier_chain_and_bridge_witness :
  read_file (Main.main flags_foo (dir_world "/w" ∅)).2 "priv_consts.h"
  = Some (unlines ["#ifndef __FOO_PRIV_CONSTS_H__";
                   "#define __FOO_PRIV_CONSTS_H__"; "";
                   include_directive "foo/pub_inlines.h"; "";
                   "#endif //__FOO_PRIV_CONSTS_H__"]) /\
  read_file (Part000.main flags_foo (dir_world "/w" ∅)).2 "priv_consts.h"
  = Some (unlines ["#ifndef __FOO_PRIV_CONSTS_H__";
                   "#define __FOO_PRIV_CONSTS_H__"; "";
                   include_directive "foo/pub_includes.h"; "";
                   "#endif //__FOO_PRIV_CONSTS_H__"]).
Proof.
  split.
  - destruct (proj1 tier_chain_and_bridge flags_foo (dir_world "/w" ∅)
                (Main.main flags_foo (dir_world "/w" ∅)).2
                eq_refl eq_refl)
      as (g & C & _ & _ & _ & R & _).
    + vm_compute. reflexivity.
    + injection C as <-. exact R.
  - assert (F : part000_flags flags_foo) by (split; reflexivity).
    assert (C : Part000.checkFlags flags_foo (dir_world "/w" ∅)
                = inr (Part000.parsed flags_foo)) by reflexivity.
    assert (H : Part000.main flags_foo (dir_world "/w" ∅)
                = (0, (Part000.main flags_foo (dir_world "/w" ∅)).2))
      by (vm_compute; reflexivity).
    assert (ND : NoDup (resolve (dir_world "/w" ∅)
                          <$> part000_plan (Part000.parsed flags_foo)))
      by (refine (bool_decide_unpack _ _); vm_compute; reflexivity).
    pose proof (proj2 tier_chain_and_bridge flags_foo
                  (Part000.parsed flags_foo) (dir_world "/w" ∅) _ F C H ND)
      as T.
    apply proj2, proj2, proj2, proj2, proj1 in T.
    vm_compute in T. vm_compute. exact T.
Defined.

(** C5 fails on [src/unnamed/part_000]: in the empty directory [/w] the
    run creates both tiers, and priv_consts.h includes pub_includes.h, not
    pub_inlines.h. *)
Lemma part000_bridge_is_pub_includes :
  (Part000.main no_flags (dir_world "/w" ∅)).1 = 0 /\
  read_file (Part000.main no_flags (dir_world "/w" ∅)).2 "priv_consts.h"
  = Some (unlines ["#ifndef __PRIV_CONSTS_H__"; "#define __PRIV_CONSTS_H__";
                   ""; include_directive "pub_includes.h"; "";
                   "#endif //__PRIV_CONSTS_H__"]) /\
  read_file (Part000.main no_flags (dir_world "/w" ∅)).2 "priv_consts.h"
  <> Some (unlines ["#ifndef __PRIV_CONSTS_H__"; "#define __PRIV_CONSTS_H__";
                    ""; include_directive "pub_inlines.h"; "";
                    "#endif //__PRIV_CONSTS_H__"]).
Proof. repeat split; vm_compute; congruence. Qed.

(** Why the paths have to differ in [src/unnamed/part_000]: with
    -name=pub_types the export header of the module is pub_types.h; the run
    ends with status 0, and the file of that name holds the export header,
    which includes pub_includes.h, not the second file of the public tier. *)
Lemma part000_export_header_replaces_tier_file :
  (Part000.main flags_pub_types (dir_world "/w" ∅)).1 = 0 /\
  read_file (Part000.main flags_pub_types (dir_world "/w" ∅)).2 "pub_types.h"
  = Some (unlines ["#ifndef __PUB_TYPES_PUB_TYPES_H__";
                   "#define __PUB_TYPES_PUB_TYPES_H__"; "";
                   include_directive "pub_types/pub_includes.h"; "";
                   "#endif //__PUB_TYPES_PUB_TYPES_H__"]) /\
  size (files (Part000.main flags_pub_types (dir_world "/w" ∅)).2) = 9%nat.
Proof. repeat split; vm_compute; reflexivity. Qed.

(** ** -add with a module name (C9) *)

Lemma includeName_qualified (n x : string) :
  n <> "" -> Writer.includeName n x = n +:+ "/" +:+ x.
Proof.
  intros NE. unfold Writer.includeName.
  destruct (len n =? 0)%nat eqn:E; [|reflexivity].
  now apply len_zero in E.
Qed.

Lemma checkFlags_incompatible fl w :
  Main.checkFlags fl w = inl Incompatible
  <-> is_Some (f_name fl) /\ is_Some (f_dir fl).
Proof.
  destruct fl as [fname fdir fonce fpub fadd].
  unfold Main.checkFlags, Main.parsed. cbn.
  destruct fname as [n|], fdir as [b|], fadd as [p|]; cbn;
    (split;
     [ intros H; repeat case_match; try discriminate H; eauto
     | intros [[? E1] [? E2]]; try discriminate E1; try discriminate E2;
       reflexivity ]).
Qed.

Lemma checkFlags_add fl w p n :
  f_add fl = Some p -> p <> "" ->
  (f_name fl = Some n /\ f_dir fl = None) \/
  (f_name fl = None /\
   exists b path, f_dir fl = Some b /\ wd w = Some path /\ n = Base path) ->
  exists g,
    Main.checkFlags fl w = inr g /\ Main.name g = n /\ Main.pfx g = p /\
    Main.isPfxSet g = true /\ Main.once g = default false (f_once fl).
Proof.
  destruct fl as [fname fdir fonce fpub fadd]. cbn [f_add f_name f_dir f_once].
  intros -> NE M. unfold Main.checkFlags, Main.parsed. cbn.
  assert (L : (len p =? 0)%nat = false).
  { destruct (len p =? 0)%nat eqn:E; [|reflexivity].
    now apply len_zero in E. }
  unfold len in L.
  destruct M as [(-> & ->)|(-> & b & path & -> & W & ->)]; cbn; rewrite L.
  - eexists. split; [reflexivity|]. easy.
  - cbn. rewrite W. eexists. split; [reflexivity|]. easy.
Qed.

(** C9, as the program has it. [src/main.go] accepts -add together with
    -name, and together with -dir; the only pair of flags it rejects as
    incompatible is -name with -dir. With -add=p and a module name n that is
    not empty (given by -name, or taken from the working directory with
    -dir, where it is never empty), a run that ends with status 0 has
    created five files and no other: p_consts.h, p_types.h, p_inlines.h, p.h
    and p.c; every include directive in them names n/<file>, and every
    guard token is the token of the path n/<file>. With -name given and
    empty the combination is accepted too, and nothing is qualified. *)
Theorem add_accepts_module_name (fl : flags) (w : world) (p n : string) :
  f_add fl = Some p -> p <> "" ->
  (f_name fl = Some n /\ f_dir fl = None) \/
  (f_name fl = None /\
   exists b path, f_dir fl = Some b /\ wd w = Some path /\ n = Base path) ->
  let q x := n +:+ "/" +:+ x in
  let header x D :=
    unlines (guarded_lines (default false (f_once fl))
               (guard_of Main.defByte (q x)) (q <$> D)) in
  (exists g,
     Main.checkFlags fl w = inr g /\ Main.name g = n /\ Main.pfx g = p /\
     Main.isPfxSet g = true) /\
  (n <> "" ->
   forall w',
     Main.main fl w = (0, w') ->
     read_file w' (p +:+ "_consts.h") = Some (header (p +:+ "_consts.h") []) /\
     read_file w' (p +:+ "_types.h")
       = Some (header (p +:+ "_types.h") [p +:+ "_consts.h"]) /\
     read_file w' (p +:+ "_inlines.h")
       = Some (header (p +:+ "_inlines.h") [p +:+ "_types.h"]) /\
     read_file w' (p +:+ ".h")
       = Some (header (p +:+ ".h") [p +:+ "_inlines.h"]) /\
     read_file w' (p +:+ ".c")
       = Some (unlines [include_directive (q (p +:+ ".h"))]) /\
     files w ⊆ files w' /\
     size (files w') = (size (files w) + 5)%nat) /\
  (f_name fl = None -> n <> "") /\
  (forall fl0 w0,
     Main.checkFlags fl0 w0 = inl Incompatible
     <-> is_Some (f_name fl0) /\ is_Some (f_dir fl0)).
Proof.
  intros A NE M q header.
  destruct (checkFlags_add fl w p n A NE M) as (g & C & GN & GP & GX & GO).
  split; [eauto|].
  split; [|split; [|apply checkFlags_incompatible]].
  2:{ intros FN. destruct M as [(E & _)|(_ & b & path & _ & _ & ->)];
        [congruence | apply Base_nonempty]. }
  intros NN w' H. apply main_exit_zero in H as (g' & C' & R).
  rewrite C in C'. injection C' as <-.
  apply run_plan_Ok in R as (RD & SUB & _ & SZ);
    [|apply Main_creating|apply Main_exclusive].
  assert (PL : main_plan g
    = [ FileSpec Include (p +:+ "_consts.h") [];
        FileSpec Include (p +:+ "_types.h") [p +:+ "_consts.h"];
        FileSpec Include (p +:+ "_inlines.h") [p +:+ "_types.h"];
        FileSpec Include (p +:+ ".h") [p +:+ "_inlines.h"];
        FileSpec Source (p +:+ ".c") [p +:+ ".h"] ]).
  { unfold main_plan. now rewrite GX, GP. }
  rewrite PL in RD, SZ. rewrite GN, GO in RD.
  assert (Q : forall x, Writer.includeName n x = q x)
    by (intros x; now apply includeName_qualified).
  assert (TI : forall x D,
    text_of Main.defByte n (default false (f_once fl)) (FileSpec Include x D)
    = header x D).
  { intros x D. unfold text_of, inc_text, header. cbn [fs_kind fs_name fs_deps].
    rewrite Q. do 2 f_equal. apply list_fmap_ext. intros _ d _. apply Q. }
  split; [|split; [|split; [|split; [|split; [|split]]]]].
  - rewrite <- TI. apply (RD (FileSpec Include (p +:+ "_consts.h") [])).
    repeat constructor.
  - rewrite <- TI. apply (RD (FileSpec Include (p +:+ "_types.h") _)).
    repeat constructor.
  - rewrite <- TI. apply (RD (FileSpec Include (p +:+ "_inlines.h") _)).
    repeat constructor.
  - rewrite <- TI. apply (RD (FileSpec Include (p +:+ ".h") _)).
    repeat constructor.
  - rewrite <- (Q (p +:+ ".h")).
    apply (RD (FileSpec Source (p +:+ ".c") [p +:+ ".h"])).
    repeat constructor.
  - exact SUB.
  - exact SZ.
Qed.

Lemma add_accepts_module_name_witness :
  read_file (Main.main flags_xxx_foo (dir_world "/w" ∅)).2 "xxx_types.h"
  = Some (unlines ["#ifndef __FOO_XXX_TYPES_H__";
                   "#define __FOO_XXX_TYPES_H__"; "";
                   include_directive "foo/xxx_consts.h"; "";
                   "#endif //__FOO_XXX_TYPES_H__"]).
Proof.
  assert (H : Main.main flags_xxx_foo (dir_world "/w" ∅)
              = (0, (Main.main flags_xxx_foo (dir_world "/w" ∅)).2))
    by (vm_compute; reflexivity).
  assert (A : f_add flags_xxx_foo = Some "xxx") by reflexivity.
  assert (NE : "xxx" <> "") by discriminate.
  assert (NN : "foo" <> "") by discriminate.
  assert (M : (f_name flags_xxx_foo = Some "foo" /\
               f_dir flags_xxx_foo = None) \/
              (f_name flags_xxx_foo = None /\
               exists b path, f_dir flags_xxx_foo = Some b /\
                 wd (dir_world "/w" ∅) = Some path /\ "foo" = Base path)).
  { left. split; reflexivity. }
  pose proof (add_accepts_module_name flags_xxx_foo (dir_world "/w" ∅)
                "xxx" "foo" A NE M) as T.
  apply proj2, proj1 in T. specialize (T NN _ H). apply proj2, proj1 in T.
  vm_compute in T. vm_compute. exact T.
Defined.

(** C9 fails as it is worded for -add=xxx with -name given and empty: the
    combination is accepted with the empty module name, the run in the
    empty directory [/w] ends with status 0, and xxx_types.h includes
    "xxx_consts.h" under the guard token of xxx_types.h: neither is
    qualified with a module name. *)
Lemma add_with_empty_name_is_unqualified :
  Main.checkFlags flags_xxx_noname (dir_world "/w" ∅)
  = inr (Main.parsed flags_xxx_noname) /\
  Main.name (Main.parsed flags_xxx_noname) = "" /\
  (Main.main flags_xxx_noname (dir_world "/w" ∅)).1 = 0 /\
  read_file (Main.main flags_xxx_noname (dir_world "/w" ∅)).2 "xxx_types.h"
  = Some (unlines ["#ifndef __XXX_TYPES_H__"; "#define __XXX_TYPES_H__"; "";
                   include_directive "xxx_consts.h"; "";
                   "#endif //__XXX_TYPES_H__"]) /\
  read_file (Main.main flags_xxx_noname (dir_world "/w" ∅)).2 "xxx_types.h"
  <> Some (unlines ["#ifndef ___XXX_TYPES_H__"; "#define ___XXX_TYPES_H__"; "";
                    include_directive "/xxx_consts.h"; "";
                    "#endif //___XXX_TYPES_H__"]).
Proof. repeat split; vm_compute; congruence. Qed.

(** * Further properties *)

(** ** Plans that succeed, plans that fail *)

Section PlanRuns.

Variable fileCreate : Z.
Variable defByte : ascii -> ascii.
Variable name : string.
Variable once : bool.
Hypothesis creates : creating fileCreate.

Let createf := create fileCreate defByte name once.
Let run := run_plan fileCreate defByte name once.
Let text := text_of defByte name once.

Lemma create_Err_cases f e w w' :
  createf f w = (Err e, w') ->
  same_env w w' /\
  ((e <> EIO /\ w' = w) \/
   (e = EIO /\ exists fn d,
      abs w (ToLower (fs_name f)) = Some fn /\ denied w fn = false /\
      (exclusive fileCreate = true -> files w !! fn = None) /\
      is_prefix d (text f) /\
      files w' = if stuck w fn then <[fn := d]> (files w)
                 else delete fn (files w))).
Proof.
  unfold createf, create, text, text_of. destruct (fs_kind f); intros H.
  - apply (createNamedInc_Err fileCreate defByte name once creates) in H
      as [E [(_ & N & W)|(-> & fn & w1 & d & _ & A & D & X & P & F)]];
      (split; [exact E|]); [now left | right].
    split; [reflexivity|]. exists fn, d. auto.
  - apply (createNamedSrc_Err fileCreate name creates) in H
      as [E [(_ & N & W)|(-> & fn & w1 & d & _ & A & D & X & P & F)]];
      (split; [exact E|]); [now left | right].
    split; [reflexivity|]. exists fn, d. auto.
Qed.

Lemma create_exists f fn c w :
  exclusive fileCreate = true ->
  abs w (ToLower (fs_name f)) = Some fn -> files w !! fn = Some c ->
  createf f w = (Err EEXIST, w).
Proof.
  intros X A F. destruct creates as [C _].
  unfold createf, create.
  destruct (fs_kind f);
    unfold Writer.createNamedInc, Writer.createNamedSrc;
    now rewrite (createFile_exists fileCreate _ fn c w C X A F).
Qed.

Section ExclusivePlans.

Hypothesis excl : exclusive fileCreate = true.

Lemma create_Err_files f e w w' :
  createf f w = (Err e, w') -> files w' = files w /\ same_env w w'.
Proof.
  intros H. apply create_Err_cases in H
    as [E [(_ & ->)|(_ & fn & d & _ & D & X & _ & ->)]].
  - easy.
  - split; [|exact E]. rewrite (denied_fresh w fn D (X excl)).
    apply delete_id. auto.
Qed.

(** A plan that succeeded found none of its files, and its names differ
    once lower-cased. *)
Lemma run_plan_Ok_fresh (steps : list file_spec) :
  forall u w w',
    run steps w = (Ok u, w') ->
    (forall f, f ∈ steps ->
       exists fn, abs w (ToLower (fs_name f)) = Some fn /\
                  files w !! fn = None) /\
    NoDup (ToLower <$> (fs_name <$> steps)).
Proof.
  induction steps as [|f steps IH]; intros u w w' H.
  - split; [intros f I; inversion I | constructor].
  - unfold run in H. cbn [run_plan] in H. fold createf in H. fold run in H.
    apply bind_Ok in H as (a & w1 & S & H).
    apply (create_Ok fileCreate defByte name once creates) in S
      as (fn & A & _ & FR & F & E).
    specialize (FR excl).
    apply IH in H as (FRs & ND).
    assert (FRw : forall f', f' ∈ steps ->
              exists fn', abs w (ToLower (fs_name f')) = Some fn' /\
                          files w1 !! fn' = None).
    { intros f' I. destruct (FRs f' I) as (fn' & A' & N').
      exists fn'. split; [|exact N'].
      now rewrite <- (same_env_abs _ _ E). }
    split.
    + intros f' I. apply elem_of_cons in I as [->|I]; [eauto|].
      destruct (FRw f' I) as (fn' & A' & N'). exists fn'. split; [exact A'|].
      rewrite F in N'. apply lookup_insert_None in N'. tauto.
    + cbn [fmap list_fmap]. apply NoDup_cons. split; [|exact ND].
      intros I. apply list_elem_of_fmap in I as (n' & EQ & I).
      apply list_elem_of_fmap in I as (f' & -> & I).
      destruct (FRw f' I) as (fn' & A' & N').
      rewrite <- EQ, A in A'. injection A' as <-.
      rewrite F, lookup_insert_eq in N'. discriminate N'.
Qed.

(** A plan that failed stopped at one file: the files before it hold
    their texts, that file and the files after it were not created, and
    nothing else changed. *)
Lemma run_plan_Err (steps : list file_spec) :
  forall e w w',
    run steps w = (Err e, w') ->
    exists done f rest,
      steps = done ++ f :: rest /\
      (forall d, d ∈ done -> read_file w' (fs_name d) = Some (text d)) /\
      files w ⊆ files w' /\ same_env w w' /\
      size (files w') = (size (files w) + length done)%nat.
Proof.
  induction steps as [|f steps IH]; intros e w w' H; [discriminate H|].
  unfold run in H. cbn [run_plan] in H. fold createf in H. fold run in H.
  unfold bind in H. destruct (createf f w) as [[a|e0] w1] eqn:S.
  - apply (create_Ok fileCreate defByte name once creates) in S
      as (fn & A & _ & FR & F & E).
    specialize (FR excl).
    apply IH in H as (done & f' & rest & -> & R & SUB & E' & SZ).
    exists (f :: done), f', rest.
    assert (SUB1 : files w ⊆ files w1)
      by (rewrite F; now apply insert_subseteq).
    split; [reflexivity|]. split; [|split; [|split]].
    + intros d I. apply elem_of_cons in I as [->|I]; [|now apply R].
      unfold read_file.
      rewrite (same_env_abs _ _ E'), (same_env_abs _ _ E).
      rewrite A. eapply lookup_weaken; [|exact SUB].
      rewrite F. apply lookup_insert_eq.
    + now transitivity (files w1).
    + apply (same_env_trans _ _ _ E E').
    + rewrite SZ, F, map_size_insert_None by exact FR. cbn. lia.
  - injection H as <- <-.
    apply create_Err_files in S as [F E].
    exists [], f, steps. split; [reflexivity|]. split; [|split; [|split]].
    + intros d I. inversion I.
    + now rewrite F.
    + exact E.
    + rewrite F. cbn. lia.
Qed.

(** A plan that succeeded found every one of its files at a path of its
    own, free and not refused. *)
Lemma run_plan_Ok_free (steps : list file_spec) :
  forall u w w',
    run steps w = (Ok u, w') ->
    (forall f, f ∈ steps ->
       exists fn, resolve w f = Some fn /\ denied w fn = false /\
                  files w !! fn = None) /\
    NoDup (resolve w <$> steps).
Proof.
  induction steps as [|f steps IH]; intros u w w' H.
  - split; [intros f I; inversion I | constructor].
  - unfold run in H. cbn [run_plan] in H. fold createf in H. fold run in H.
    apply bind_Ok in H as (a & w1 & S & H).
    apply (create_Ok fileCreate defByte name once creates) in S
      as (fn & A & D & FR & F & E).
    specialize (FR excl).
    apply IH in H as (FRs & ND).
    assert (RW : forall f', resolve w1 f' = resolve w f').
    { intros f'. unfold resolve. now rewrite (same_env_abs _ _ E). }
    assert (FRw : forall f', f' ∈ steps ->
              exists fn', resolve w f' = Some fn' /\ denied w fn' = false /\
                          files w !! fn' = None /\ fn' <> fn).
    { intros f' I. destruct (FRs f' I) as (fn' & A' & D' & N').
      exists fn'. rewrite RW in A'. rewrite F in N'.
      apply lookup_insert_None in N' as [N' NE].
      split; [exact A'|]. split; [|split; [exact N'|congruence]].
      rewrite <- D'. symmetry. apply denied_same; [exact E | | exact N'].
      rewrite F. now apply lookup_insert_None. }
    split.
    + intros f' I. apply elem_of_cons in I as [->|I]; [eauto|].
      destruct (FRw f' I) as (fn' & A' & D' & N' & _). eauto.
    + cbn [fmap list_fmap]. apply NoDup_cons. split.
      * intros I. apply list_elem_of_fmap in I as (f' & EQ & I).
        destruct (FRw f' I) as (fn' & A' & _ & _ & NE).
        unfold resolve in EQ at 1. rewrite A, A' in EQ. congruence.
      * erewrite list_fmap_ext; [exact ND|]. intros i f' _. now rewrite RW.
Qed.

End ExclusivePlans.

End PlanRuns.

(** ** The command line of [src/main.go] *)

#[local] Set Warnings "-clear-no-such-hyp".

(** X1. Once [flag.Parse] has accepted the command line, [checkFlags] of
    [src/main.go] ends the process in three cases and no other, looked at
    in this order: -name and -dir both given; -add given with an empty
    value; -dir given while the working directory cannot be read. (Before
    that, [flag.Parse] ends the process itself on a command line it does
    not accept.) *)
Theorem checkFlags_rejects (fl : flags) (w : world) :
  ((exists e, Main.checkFlags fl w = inl e) <->
   (is_Some (f_name fl) /\ is_Some (f_dir fl)) \/
   f_add fl = Some "" \/
   (is_Some (f_dir fl) /\ wd w = None)) /\
  (Main.checkFlags fl w = inl EmptyPrefix <->
   ~ (is_Some (f_name fl) /\ is_Some (f_dir fl)) /\ f_add fl = Some "") /\
  (Main.checkFlags fl w = inl NoWorkingDir <->
   f_name fl = None /\ is_Some (f_dir fl) /\ f_add fl <> Some "" /\
   wd w = None).
Proof.
  destruct fl as [fname fdir fonce fpub fadd].
  unfold Main.checkFlags, Main.parsed. cbn.
  unfold is_Some.
  destruct fname as [n|], fdir as [b|], fadd as [[|c p]|], (wd w) as [path|];
    cbn; (split; [|split]); naive_solver.
Qed.

Lemma checkFlags_inr (fl : flags) (w : world) (g : Main.globals) :
  Main.checkFlags fl w = inr g ->
  Main.pfx g = default "pub" (f_add fl) /\
  Main.pfx g <> "" /\
  Main.isPfxSet g = bool_decide (is_Some (f_add fl)) /\
  Main.once g = default false (f_once fl) /\
  Main.pub g = default false (f_pub fl) /\
  (f_dir fl = None -> Main.name g = default "" (f_name fl)) /\
  (is_Some (f_dir fl) ->
   f_name fl = None /\ exists path, wd w = Some path /\ Main.name g = Base path).
Proof.
  destruct fl as [fname fdir fonce fpub fadd].
  unfold Main.checkFlags, Main.parsed, is_Some. cbn.
  destruct fname as [n|], fdir as [b|], fadd as [[|c p]|], (wd w) as [path|];
    cbn; intros H; try discriminate H; injection H as <-; cbn;
    repeat split; try discriminate; try reflexivity; naive_solver.
Qed.

(** X2. What [checkFlags] of [src/main.go] hands to [main] when it
    accepts the command line: the prefix is the value of -add, or "pub"
    without -add, and is never empty; without -dir the module name is the
    value of -name (empty without -name); with -dir it is the last element
    of the working directory. *)
Theorem checkFlags_accepts (fl : flags) (w : world) (g : Main.globals) :
  Main.checkFlags fl w = inr g ->
  Main.pfx g = default "pub" (f_add fl) /\
  Main.pfx g <> "" /\
  Main.isPfxSet g = bool_decide (is_Some (f_add fl)) /\
  Main.once g = default false (f_once fl) /\
  Main.pub g = default false (f_pub fl) /\
  (f_dir fl = None -> Main.name g = default "" (f_name fl)) /\
  (is_Some (f_dir fl) ->
   f_name fl = None /\ exists path, wd w = Some path /\ Main.name g = Base path).
Proof. apply checkFlags_inr. Qed.

Lemma checkFlags_accepts_witness :
  Main.pfx (Main.set_pfx "xxx" (Main.parsed flags_xxx_foo)) = "xxx" /\
  Main.name (Main.set_pfx "xxx" (Main.parsed flags_xxx_foo)) = "foo".
Proof.
  pose proof (checkFlags_accepts flags_xxx_foo (dir_world "/w" ∅)
                (Main.set_pfx "xxx" (Main.parsed flags_xxx_foo)) eq_refl)
    as (P & _ & _ & _ & _ & N & _).
  split; [exact P | exact (N eq_refl)].
Defined.

(** [main] reads the module name, the two modes, the prefix and whether
    the prefix was given; of the mode -pub only without -add. *)
Lemma generate_reads (g g' : Main.globals) (w : world) :
  Main.name g = Main.name g' -> Main.once g = Main.once g' ->
  Main.pfx g = Main.pfx g' -> Main.isPfxSet g = Main.isPfxSet g' ->
  Main.pub g = Main.pub g' \/ Main.isPfxSet g = true ->
  Main.generate g w = Main.generate g' w.
Proof.
  destruct g as [gn gu go gb gp gsn gsd gsp].
  destruct g' as [hn hu ho hb hp hsn hsd hsp].
  cbn. intros <- <- <- <- [ <- | -> ]; reflexivity.
Qed.

(** X3. The value of -dir is never read: -dir=false takes the module name
    from the working directory exactly as -dir=true does, and the two runs
    are the same. *)
Theorem dir_value_is_ignored (fl : flags) (b b' : bool) (w : world) :
  Main.main (set_dir (Some b) fl) w = Main.main (set_dir (Some b') fl) w.
Proof.
  destruct fl as [fname fdir fonce fpub fadd].
  unfold Main.main, Main.checkFlags, Main.parsed, set_dir. cbn.
  destruct fname as [n|]; cbn; [reflexivity|].
  destruct fadd as [p|]; cbn.
  - destruct (String.length p =? 0)%nat; [reflexivity|].
    destruct (wd w) as [path|]; [|reflexivity].
    erewrite generate_reads; [reflexivity|..]; cbn; auto.
  - destruct (wd w) as [path|]; [|reflexivity].
    erewrite generate_reads; [reflexivity|..]; cbn; auto.
Qed.

(** X4. With -add the flag -pub has no effect: the run is the same with
    and without it. *)
Theorem pub_is_ignored_with_add (fl : flags) (pb : option bool) (w : world) :
  is_Some (f_add fl) -> Main.main (set_pub pb fl) w = Main.main fl w.
Proof.
  destruct fl as [fname fdir fonce fpub fadd]. cbn [f_add].
  intros [p ->].
  unfold Main.main, Main.checkFlags, Main.parsed, set_pub. cbn.
  destruct fname as [n|], fdir as [b|]; cbn; try reflexivity;
    destruct (String.length p =? 0)%nat; try reflexivity;
    try (destruct (wd w) as [path|]; [|reflexivity]);
    (erewrite generate_reads; [reflexivity|..]; cbn; auto).
Qed.

Lemma pub_is_ignored_with_add_witness :
  Main.main (set_pub (Some true) flags_xxx) (dir_world "/w" ∅)
  = Main.main flags_xxx (dir_world "/w" ∅).
Proof.
  apply (pub_is_ignored_with_add flags_xxx (Some true) (dir_world "/w" ∅)).
  eexists. reflexivity.
Defined.

(** ** Whole runs of [src/main.go] *)

Lemma main_plan_length_spec (g : Main.globals) :
  length (main_plan g) = main_plan_length g.
Proof.
  unfold main_plan, main_plan_length, named.
  destruct (Main.isPfxSet g); [reflexivity|].
  rewrite !length_app.
  destruct (0 <? len (Main.name g))%nat, (Main.pub g); reflexivity.
Qed.

Lemma checkFlags_same_wd fl w w' :
  wd w' = wd w -> Main.checkFlags fl w' = Main.checkFlags fl w.
Proof. unfold Main.checkFlags. now intros ->. Qed.

Lemma main_exit_one fl w w' g :
  Main.main fl w = (1, w') -> Main.checkFlags fl w = inr g ->
  exists e,
    run_plan Main.fileCreate Main.defByte (Main.name g) (Main.once g)
      (main_plan g) w = (Err e, w').
Proof.
  unfold Main.main. intros H C. rewrite C, generate_plan in H.
  destruct (run_plan _ _ _ _ _ w) as [[[]|e] w1] eqn:R; [discriminate|].
  injection H as <-. eauto.
Qed.

Lemma main_exit_zero_files (fl : flags) (w w' : world) :
  Main.main fl w = (0, w') ->
  exists g,
    Main.checkFlags fl w = inr g /\
    (forall f, f ∈ main_plan g ->
       read_file w (fs_name f) = None /\
       read_file w' (fs_name f)
       = Some (text_of Main.defByte (Main.name g) (Main.once g) f)) /\
    files w ⊆ files w' /\
    size (files w') = (size (files w) + main_plan_length g)%nat.
Proof.
  intros H. apply main_exit_zero in H as (g & C & R).
  exists g. split; [exact C|].
  pose proof R as R'.
  apply run_plan_Ok in R as (RD & SUB & _ & SZ);
    [|apply Main_creating|apply Main_exclusive].
  apply run_plan_Ok_fresh in R' as (FR & _);
    [|apply Main_creating|apply Main_exclusive].
  split; [|split; [exact SUB|]].
  - intros f I. split; [|now apply RD].
    destruct (FR f I) as (fn & A & N). unfold read_file. now rewrite A.
  - now rewrite SZ, main_plan_length_spec.
Qed.

(** X5. A run of [src/main.go] that ends with status 0 found none of the
    files of its plan, created each of them with its text, left every
    other file as it was, and added as many files as the plan has: five
    with -add; otherwise three for the public tier, three more for the
    private tier unless -pub is given, and one per tier (the export header,
    the source file) when there is a module name. *)
Theorem main_success (fl : flags) (w w' : world) :
  Main.main fl w = (0, w') ->
  exists g,
    Main.checkFlags fl w = inr g /\
    (forall f, f ∈ main_plan g ->
       read_file w (fs_name f) = None /\
       read_file w' (fs_name f)
       = Some (text_of Main.defByte (Main.name g) (Main.once g) f)) /\
    files w ⊆ files w' /\
    size (files w') = (size (files w) + main_plan_length g)%nat.
Proof. apply main_exit_zero_files. Qed.

Lemma main_success_witness :
  size (files (Main.main flags_foo (dir_world "/w" ∅)).2) = 8%nat.
Proof.
  destruct (main_success flags_foo (dir_world "/w" ∅)
              (Main.main flags_foo (dir_world "/w" ∅)).2)
    as (g & C & _ & _ & SZ).
  - vm_compute. reflexivity.
  - injection C as <-. exact SZ.
Defined.

(** X6. A run of [src/main.go] that ends with status 1 after the command
    line was accepted stopped at one file of its plan: the files planned
    before it are there with their full texts, neither that file nor a later
    one was added, and every file that existed is as it was. Nothing is
    rolled back and nothing is left half written. *)
Theorem main_failure (fl : flags) (w w' : world) (g : Main.globals) :
  Main.checkFlags fl w = inr g -> Main.main fl w = (1, w') ->
  exists done f rest,
    main_plan g = done ++ f :: rest /\
    (forall d, d ∈ done ->
       read_file w' (fs_name d)
       = Some (text_of Main.defByte (Main.name g) (Main.once g) d)) /\
    files w ⊆ files w' /\
    size (files w') = (size (files w) + length done)%nat.
Proof.
  intros C H. destruct (main_exit_one fl w w' g H C) as [e R].
  apply run_plan_Err in R as (done & f & rest & P & RD & SUB & _ & SZ);
    [|apply Main_creating|apply Main_exclusive].
  exists done, f, rest. auto.
Qed.

Lemma main_failure_witness :
  size (files (Main.main flags_foo w_taken).2) = 1%nat.
Proof.
  destruct (main_failure flags_foo w_taken (Main.main flags_foo w_taken).2
              g_foo eq_refl)
    as (done & f & rest & P & _ & _ & SZ).
  - vm_compute. reflexivity.
  - destruct done as [|d done]; [exact SZ|].
    exfalso. injection P as <- P.
    assert (E : (Main.main flags_foo w_taken).2 = w_taken)
      by (vm_compute; reflexivity).
    rewrite E in SZ. vm_compute in SZ. discriminate SZ.
Defined.

Lemma run_plan_head_exists fileCreate defByte name once f rest fn c w :
  creating fileCreate -> exclusive fileCreate = true ->
  abs w (ToLower (fs_name f)) = Some fn -> files w !! fn = Some c ->
  run_plan fileCreate defByte name once (f :: rest) w = (Err EEXIST, w).
Proof.
  intros C X A F. cbn [run_plan]. unfold bind.
  now rewrite (create_exists fileCreate defByte name once C f fn c w X A F).
Qed.

(** X7. Running [src/main.go] again with the same command line where a run
    has succeeded ends with status 1 and changes nothing: the first file of
    the plan is there. *)
Theorem main_second_run_fails (fl : flags) (w w' : world) :
  Main.main fl w = (0, w') -> Main.main fl w' = (1, w').
Proof.
  intros H. apply main_exit_zero in H as (g & C & R).
  apply run_plan_Ok in R as (RD & _ & (_ & _ & W & _) & _);
    [|apply Main_creating|apply Main_exclusive].
  unfold Main.main. rewrite (checkFlags_same_wd fl w w' W), C, generate_plan.
  assert (I : FileSpec Include (Main.pfx g +:+ Main.sConsts) [] ∈ main_plan g)
    by (unfold main_plan; left).
  apply RD in I. unfold read_file in I. cbn [fs_name] in I.
  destruct (abs w' (ToLower (Main.pfx g +:+ Main.sConsts))) as [fn|] eqn:A;
    [|discriminate I].
  unfold main_plan, tier. cbn [app].
  now erewrite (run_plan_head_exists _ _ _ _
                  (FileSpec Include (Main.pfx g +:+ Main.sConsts) []) _ fn _ w'
                  Main_creating Main_exclusive A I).
Qed.

Lemma main_second_run_fails_witness :
  Main.main flags_foo (Main.main flags_foo (dir_world "/w" ∅)).2
  = (1, (Main.main flags_foo (dir_world "/w" ∅)).2).
Proof.
  apply (main_second_run_fails flags_foo (dir_world "/w" ∅)).
  vm_compute. reflexivity.
Defined.

(** X8. When no write fails, a run of [src/main.go] ends with status 0
    exactly when the command line is accepted, every file of the plan
    resolves to a path where creation is not refused and no file is, and
    these paths differ from each other; the run then leaves what was there
    and the planned files with their texts. *)
Theorem main_succeeds_iff (fl : flags) (w : world) :
  wfaults w = [] ->
  ((Main.main fl w).1 = 0 <->
   exists g,
     Main.checkFlags fl w = inr g /\
     (forall f, f ∈ main_plan g ->
        exists fn, resolve w f = Some fn /\ denied w fn = false /\
                   files w !! fn = None) /\
     NoDup (resolve w <$> main_plan g)) /\
  (forall g,
     Main.checkFlags fl w = inr g ->
     (forall f, f ∈ main_plan g ->
        exists fn, resolve w f = Some fn /\ denied w fn = false /\
                   files w !! fn = None) ->
     NoDup (resolve w <$> main_plan g) ->
     Main.main fl w
     = (0, set_files
             (fun fs =>
                foldl (put_file w
                         (text_of Main.defByte (Main.name g) (Main.once g)))
                  fs (main_plan g)) w)).
Proof.
  intros W. pose proof (main_clean fl w) as R.
  split; [|intros g; now apply R]. split.
  - intros H.
    destruct (Main.main fl w) as [c w'] eqn:M.
    cbn in H. subst c.
    apply main_exit_zero in M as (g & C & P).
    apply run_plan_Ok_free in P as (FR & ND);
      [|apply Main_creating|apply Main_exclusive].
    exists g. auto.
  - intros (g & C & FR & ND). now rewrite (R g W C FR ND).
Qed.

Lemma main_succeeds_iff_witness :
  wfaults (dir_world "/w" ∅) = [] /\ (Main.main flags_foo (dir_world "/w" ∅)).1 = 0.
Proof.
  split; [reflexivity|].
  apply (proj1 (main_succeeds_iff flags_foo (dir_world "/w" ∅) eq_refl)).
  exists g_foo. split; [reflexivity|]. split.
  - intros f _. exists (in_dir "/w" (ToLower (fs_name f))).
    split; [reflexivity|]. split; [reflexivity|]. apply lookup_empty.
  - refine (bool_decide_unpack _ _). vm_compute. reflexivity.
Defined.

(** ** -add with any prefix *)

Lemma includeName_unqualified (x : string) : Writer.includeName "" x = x.
Proof. reflexivity. Qed.

(** X9. With -add=p and no module name (neither -name nor -dir), a run of
    [src/main.go] that ends with status 0 was given a prefix that is not
    empty and has added five files: the ones [createFile] resolves for
    p_consts.h, p_types.h, p_inlines.h, p.h and p.c. Whatever the resolved
    paths are, the guard tokens and the include directives in the files are
    built from p as it was given, and are not qualified: p_types.h includes
    "p_consts.h", and p.c is the single directive that includes "p.h". *)
Theorem run_add_any_prefix (fl : flags) (p : string) (w w' : world) :
  f_add fl = Some p -> f_name fl = None -> f_dir fl = None ->
  Main.main fl w = (0, w') ->
  let header x D :=
    unlines (guarded_lines (default false (f_once fl))
               (guard_of Main.defByte x) D) in
  p <> "" /\
  read_file w' (p +:+ "_consts.h") = Some (header (p +:+ "_consts.h") []) /\
  read_file w' (p +:+ "_types.h")
    = Some (header (p +:+ "_types.h") [p +:+ "_consts.h"]) /\
  read_file w' (p +:+ "_inlines.h")
    = Some (header (p +:+ "_inlines.h") [p +:+ "_types.h"]) /\
  read_file w' (p +:+ ".h")
    = Some (header (p +:+ ".h") [p +:+ "_inlines.h"]) /\
  read_file w' (p +:+ ".c")
    = Some (unlines [include_directive (p +:+ ".h")]) /\
  files w ⊆ files w' /\
  size (files w') = (size (files w) + 5)%nat.
Proof.
  intros A N D H header.
  apply main_exit_zero in H as (g & C & R).
  destruct (checkFlags_inr fl w g C) as (PF & PNE & X & O & _ & NM & _).
  rewrite A in PF, X. cbn [default from_option id] in PF.
  rewrite bool_decide_eq_true_2 in X by eauto.
  specialize (NM D). rewrite N in NM. cbn [default from_option id] in NM.
  split; [now rewrite <- PF|].
  apply run_plan_Ok in R as (RD & SUB & _ & SZ);
    [|apply Main_creating|apply Main_exclusive].
  assert (PL : main_plan g
    = [ FileSpec Include (p +:+ "_consts.h") [];
        FileSpec Include (p +:+ "_types.h") [p +:+ "_consts.h"];
        FileSpec Include (p +:+ "_inlines.h") [p +:+ "_types.h"];
        FileSpec Include (p +:+ ".h") [p +:+ "_inlines.h"];
        FileSpec Source (p +:+ ".c") [p +:+ ".h"] ]).
  { unfold main_plan. now rewrite X, PF. }
  rewrite PL in RD, SZ. rewrite NM, O in RD.
  assert (TI : forall x D,
    text_of Main.defByte "" (default false (f_once fl)) (FileSpec Include x D)
    = header x D).
  { intros x D'. unfold text_of, inc_text, header.
    cbn [fs_kind fs_name fs_deps].
    rewrite includeName_unqualified. do 2 f_equal.
    rewrite <- (list_fmap_id D') at 2. apply list_fmap_ext. now intros. }
  split; [|split; [|split; [|split; [|split; [|split]]]]].
  - rewrite <- TI. apply (RD (FileSpec Include (p +:+ "_consts.h") [])).
    repeat constructor.
  - rewrite <- TI. apply (RD (FileSpec Include (p +:+ "_types.h") _)).
    repeat constructor.
  - rewrite <- TI. apply (RD (FileSpec Include (p +:+ "_inlines.h") _)).
    repeat constructor.
  - rewrite <- TI. apply (RD (FileSpec Include (p +:+ ".h") _)).
    repeat constructor.
  - apply (RD (FileSpec Source (p +:+ ".c") [p +:+ ".h"])).
    repeat constructor.
  - exact SUB.
  - exact SZ.
Qed.

Lemma run_add_any_prefix_witness :
  files (Main.main flags_Xy (dir_world "/w" ∅)).2 !! "/w/xy_types.h"
  = Some (unlines ["#ifndef __XY_TYPES_H__"; "#define __XY_TYPES_H__"; "";
                   include_directive "Xy_consts.h"; "";
                   "#endif //__XY_TYPES_H__"]).
Proof.
  assert (H : Main.main flags_Xy (dir_world "/w" ∅)
              = (0, (Main.main flags_Xy (dir_world "/w" ∅)).2))
    by (vm_compute; reflexivity).
  pose proof (run_add_any_prefix flags_Xy "Xy" (dir_world "/w" ∅) _
                eq_refl eq_refl eq_refl H) as T.
  apply proj2, proj2, proj1 in T.
  vm_compute in T. vm_compute. exact T.
Defined.

(** ** Guard tokens of any file *)

Lemma len_sapp (a b : string) : len (a +:+ b) = (len a + len b)%nat.
Proof.
  induction a as [|x a IH]; [reflexivity|].
  rewrite sapp_cons. unfold len in *. cbn. now rewrite IH.
Qed.

Lemma len_string_map (f : ascii -> ascii) (s : string) :
  len (string_map f s) = len s.
Proof.
  induction s as [|x s IH]; [reflexivity|]. unfold len in *. cbn. now rewrite IH.
Qed.

Lemma guard_of_bytes (rule : ascii -> ascii) (ok : ascii -> bool) (path : string) :
  (forall b, ok (rule b) = true) -> ok "_"%char = true ->
  Forall (fun b => ok b = true) (bytes (guard_of rule path)) /\
  len (guard_of rule path) = (len path + 4)%nat.
Proof.
  intros R U. split.
  - unfold guard_of. rewrite !bytes_app, bytes_string_map.
    repeat apply Forall_app_2.
    + repeat constructor; exact U.
    + apply Forall_fmap, Forall_forall. intros b _. apply R.
    + repeat constructor; exact U.
  - unfold guard_of. rewrite !len_sapp, len_string_map. cbn. lia.
Qed.

(** X10. For every module name and every file name, the guard token is a
    C macro name four bytes longer than the include path: in [src/main.go]
    it is made of underscores, upper-case letters and digits, in
    [src/unnamed/part_000] of underscores and upper-case letters, and it
    starts with an underscore. *)
Theorem guard_token_is_macro_name :
  (forall g iname,
     Forall (fun b => token_byte b = true) (bytes (Main.defName g iname)) /\
     len (Main.defName g iname) = (len (Main.includeName g iname) + 4)%nat /\
     (1 <= leading (Main.defName g iname))%nat) /\
  (forall g iname,
     Forall (fun b => letter_token_byte b = true)
       (bytes (Part000.defName g iname)) /\
     len (Part000.defName g iname)
     = (len (Part000.includeName g iname) + 4)%nat /\
     (1 <= leading (Part000.defName g iname))%nat).
Proof.
  split; intros g iname.
  - rewrite Main_defName_rule.
    destruct (guard_of_bytes rule_digits_kept token_byte
                (Main.includeName g iname)) as [A B];
      [intros b; each_byte b | reflexivity |].
    split; [exact A|]. split; [exact B|].
    unfold leading, guard_of. rewrite bytes_app. cbn. lia.
  - rewrite Part000_defName_rule.
    destruct (guard_of_bytes rule_digits_replaced letter_token_byte
                (Part000.includeName g iname)) as [A B];
      [intros b; each_byte b | reflexivity |].
    split; [exact A|]. split; [exact B|].
    unfold leading, guard_of. rewrite bytes_app. cbn. lia.
Qed.

Lemma string_map_ToLower (rule : ascii -> ascii) (s : string) :
  (forall b, rule (lower_byte b) = rule b) ->
  string_map rule (ToLower s) = string_map rule s.
Proof.
  intros R. induction s as [|b s IH]; [reflexivity|].
  cbn. now rewrite R, IH.
Qed.

Lemma guard_of_same_case (rule : ascii -> ascii) (n a b : string) :
  (forall c, rule (lower_byte c) = rule c) ->
  ToLower a = ToLower b ->
  guard_of rule (Writer.includeName n a) = guard_of rule (Writer.includeName n b).
Proof.
  intros R E.
  assert (M : string_map rule a = string_map rule b).
  { rewrite <- (string_map_ToLower rule a R), <- (string_map_ToLower rule b R).
    now rewrite E. }
  unfold guard_of, Writer.includeName.
  destruct (len n =? 0)%nat; [now rewrite M|].
  now rewrite !string_map_app, M.
Qed.

(** X11. Letter case does not separate files: two names of ASCII bytes
    that differ in the case of their letters only are created at the same
    path and get the same guard token, in both programs. *)
Theorem names_equal_up_to_case :
  (forall g a b,
     ascii_only a = true -> ascii_only b = true -> ToLower a = ToLower b ->
     Main.createFile a = Main.createFile b /\
     Main.defName g a = Main.defName g b) /\
  (forall g a b,
     ascii_only a = true -> ascii_only b = true -> ToLower a = ToLower b ->
     Part000.createFile a = Part000.createFile b /\
     Part000.defName g a = Part000.defName g b).
Proof.
  split; intros g a b _ _ E; split.
  - unfold Main.createFile, Writer.createFile. now rewrite E.
  - rewrite !Main_defName_rule. apply guard_of_same_case; [|exact E].
    intros c. each_byte c.
  - unfold Part000.createFile, Writer.createFile. now rewrite E.
  - rewrite !Part000_defName_rule. apply guard_of_same_case; [|exact E].
    intros c. each_byte c.
Qed.

Lemma names_equal_up_to_case_witness :
  ToLower "Foo.H" = ToLower "foo.h" /\
  Main.defName g_plain "Foo.H" = Main.defName g_plain "foo.h".
Proof.
  split; [reflexivity|].
  apply (proj1 names_equal_up_to_case g_plain "Foo.H" "foo.h");
    reflexivity.
Defined.

(** ** One file that fails *)

(** X12. In [src/main.go] the creation of a file is all or nothing for
    the whole directory: when [createNamedInc] or [createNamedSrc] returns
    an error, every path holds what it held before the call, the target
    included. *)
Theorem main_failed_file_changes_nothing :
  (forall g iname inc e w w',
     Main.createNamedInc g iname inc w = (Err e, w') ->
     files w' = files w /\ same_env w w') /\
  (forall g sname inc e w w',
     Main.createNamedSrc g sname inc w = (Err e, w') ->
     files w' = files w /\ same_env w w').
Proof.
  split; intros g fname inc e w w' H.
  - apply (create_Err_files Main.fileCreate Main.defByte (Main.name g)
             (Main.once g) Main_creating Main_exclusive
             (FileSpec Include fname inc) e w w' H).
  - apply (create_Err_files Main.fileCreate Main.defByte (Main.name g)
             (Main.once g) Main_creating Main_exclusive
             (FileSpec Source fname inc) e w w' H).
Qed.

Lemma main_failed_file_witness :
  files (Main.createNamedInc g_plain "pub_types.h" ["pub_consts.h"]
           w_disk_full).2 = files w_disk_full.
Proof.
  eapply (proj1 main_failed_file_changes_nothing g_plain "pub_types.h"
            ["pub_consts.h"] EIO).
  vm_compute. reflexivity.
Defined.

(** X13. In [src/unnamed/part_000] a write that fails costs the file that
    was there: when the target of [createNamedInc] or [createNamedSrc]
    exists and the call returns the write error, the old content is not put
    back. If [os.Remove] succeeds the path is empty afterwards; if it fails,
    which the program does not notice, the file holds the beginning of the
    new text that was written before the failure. Every other path holds
    what it held. *)
Theorem part000_failed_write_loses_existing_file :
  (forall g iname inc fn c w w',
     abs w (ToLower iname) = Some fn -> files w !! fn = Some c ->
     Part000.createNamedInc g iname inc w = (Err EIO, w') ->
     (forall k, k <> fn -> files w' !! k = files w !! k) /\
     (stuck w fn = false -> files w' !! fn = None) /\
     (stuck w fn = true ->
      exists d,
        files w' !! fn = Some d /\
        is_prefix d
          (inc_text Part000.defByte (Part000.name g) (Part000.once g)
             iname inc))) /\
  (forall g sname inc fn c w w',
     abs w (ToLower sname) = Some fn -> files w !! fn = Some c ->
     Part000.createNamedSrc g sname inc w = (Err EIO, w') ->
     (forall k, k <> fn -> files w' !! k = files w !! k) /\
     (stuck w fn = false -> files w' !! fn = None) /\
     (stuck w fn = true ->
      exists d,
        files w' !! fn = Some d /\
        is_prefix d (src_text (Part000.name g) inc))).
Proof.
  split; intros g fname inc fn c w w' A F H.
  - apply (create_Err_cases Part000.fileCreate Part000.defByte
             (Part000.name g) (Part000.once g) Part000_creating
             (FileSpec Include fname inc)) in H
      as [_ [(N & _)|(_ & fn' & d & A' & _ & _ & P & ->)]]; [now destruct N|].
    cbn [fs_name] in A'. rewrite A in A'. injection A' as <-.
    split; [|split].
    + intros k NE. destruct (stuck w fn).
      * now apply lookup_insert_ne.
      * now apply lookup_delete_ne.
    + intros ->. apply lookup_delete_eq.
    + intros ->. exists d. split; [apply lookup_insert_eq|exact P].
  - apply (create_Err_cases Part000.fileCreate Part000.defByte
             (Part000.name g) (Part000.once g) Part000_creating
             (FileSpec Source fname inc)) in H
      as [_ [(N & _)|(_ & fn' & d & A' & _ & _ & P & ->)]]; [now destruct N|].
    cbn [fs_name] in A'. rewrite A in A'. injection A' as <-.
    split; [|split].
    + intros k NE. destruct (stuck w fn).
      * now apply lookup_insert_ne.
      * now apply lookup_delete_ne.
    + intros ->. apply lookup_delete_eq.
    + intros ->. exists d. split; [apply lookup_insert_eq|exact P].
Qed.

Lemma part000_failed_write_witness :
  files w_taken_full !! "/w/pub_consts.h" = Some "keep" /\
  stuck w_taken_full "/w/pub_consts.h" = false /\
  (Part000.createNamedInc h_plain "pub_consts.h" [] w_taken_full).1
  = Err EIO /\
  files (Part000.createNamedInc h_plain "pub_consts.h" [] w_taken_full).2
    !! "/w/pub_consts.h" = None.
Proof.
  split; [reflexivity|]. split; [reflexivity|]. split; [reflexivity|].
  assert (H : Part000.createNamedInc h_plain "pub_consts.h" [] w_taken_full
              = (Err EIO,
                 (Part000.createNamedInc h_plain "pub_consts.h" []
                    w_taken_full).2))
    by (vm_compute; reflexivity).
  pose proof (proj1 part000_failed_write_loses_existing_file h_plain
                "pub_consts.h" [] "/w/pub_consts.h" "keep" w_taken_full _
                eq_refl eq_refl H) as (_ & T & _).
  apply T. reflexivity.
Defined.

(** ** Runs of [src/unnamed/part_000] *)

(** X14. For a command line that [flag.Parse] of [src/unnamed/part_000]
    has accepted (so with the flags -name, -dir and -once only), [checkFlags]
    ends the process when -name and -dir are both given, or when -dir is
    given and the working directory cannot be read, and in no other case;
    when it accepts, the module name is the value of -name without -dir and
    the last element of the working directory with -dir. *)
Theorem part000_checkFlags (fl : flags) (w : world) :
  part000_flags fl ->
  ((exists e, Part000.checkFlags fl w = inl e) <->
   (is_Some (f_name fl) /\ is_Some (f_dir fl)) \/
   (is_Some (f_dir fl) /\ wd w = None)) /\
  (forall g, Part000.checkFlags fl w = inr g ->
     Part000.once g = default false (f_once fl) /\
     (f_dir fl = None -> Part000.name g = default "" (f_name fl)) /\
     (is_Some (f_dir fl) ->
      exists path, wd w = Some path /\ Part000.name g = Base path)).
Proof.
  destruct fl as [fname fdir fonce fpub fadd]. unfold part000_flags.
  cbn [f_add f_pub]. intros [-> ->].
  unfold Part000.checkFlags, Part000.parsed, is_Some. cbn.
  destruct fname as [n|], fdir as [b|], (wd w) as [path|]; cbn;
    (split; [|intros g H; try discriminate H; injection H as <-; cbn]);
    naive_solver.
Qed.

Lemma part000_checkFlags_witness :
  part000_flags {| f_name := Some "foo"; f_dir := Some true; f_once := None;
                   f_pub := None; f_add := None |} /\
  exists e, Part000.checkFlags
              {| f_name := Some "foo"; f_dir := Some true; f_once := None;
                 f_pub := None; f_add := None |} (dir_world "/w" ∅) = inl e.
Proof.
  assert (F : part000_flags {| f_name := Some "foo"; f_dir := Some true;
                               f_once := None; f_pub := None; f_add := None |})
    by (split; reflexivity).
  split; [exact F|].
  apply (proj1 (part000_checkFlags
                  {| f_name := Some "foo"; f_dir := Some true; f_once := None;
                     f_pub := None; f_add := None |} (dir_world "/w" ∅) F)).
  left. split; eexists; reflexivity.
Defined.

Lemma part000_checkFlags_same_wd fl w w' :
  wd w' = wd w -> Part000.checkFlags fl w' = Part000.checkFlags fl w.
Proof. unfold Part000.checkFlags. now intros ->. Qed.

Lemma part000_main_clean fl g w :
  Part000.checkFlags fl w = inr g -> wfaults w = [] ->
  (forall f, f ∈ part000_plan g ->
     exists fn, resolve w f = Some fn /\ denied w fn = false) ->
  Part000.main fl w
  = (0, set_files
          (fun fs =>
             foldl (put_file w (text_of Part000.defByte (Part000.name g)
                                  (Part000.once g)))
               fs (part000_plan g)) w).
Proof.
  intros C W OK. unfold Part000.main. rewrite C, part000_generate_plan.
  rewrite run_plan_clean;
    [reflexivity | apply Part000_creating | exact W | exact OK |].
  intros X. discriminate X.
Qed.

(** X15. When no write fails and every file of the plan resolves to a path
    where opening is not refused, [src/unnamed/part_000] ends with status 0
    whatever is there: every planned path holds the text of the file of the
    plan that was written there last, and every other path holds what it
    held. Running it again with the same command line ends with status 0
    and leaves the files as the first run left them. *)
Theorem part000_run_overwrites_and_repeats (fl : flags)
    (g : Part000.globals) (w : world) :
  part000_flags fl ->
  Part000.checkFlags fl w = inr g -> wfaults w = [] ->
  (forall f, f ∈ part000_plan g ->
     exists fn, resolve w f = Some fn /\ denied w fn = false) ->
  let text := text_of Part000.defByte (Part000.name g) (Part000.once g) in
  let w1 :=
    set_files (fun fs => foldl (put_file w text) fs (part000_plan g)) w in
  Part000.main fl w = (0, w1) /\
  (forall f, f ∈ part000_plan g ->
     exists f', f' ∈ part000_plan g /\ resolve w f' = resolve w f /\
       read_file w1 (fs_name f) = Some (text f')) /\
  (forall k, Some k ∉ resolve w <$> part000_plan g ->
     files w1 !! k = files w !! k) /\
  Part000.main fl w1 = (0, w1).
Proof.
  intros _ C W OK text w1. subst text.
  split; [now apply part000_main_clean|]. split; [|split].
  - intros f I. destruct (OK f I) as (fn & A & _).
    destruct (plan_put_last Part000.defByte (Part000.name g) (Part000.once g)
                w (part000_plan g) (files w) f fn I A) as (f' & I' & A' & L).
    exists f'. split; [exact I'|]. split; [congruence|].
    unfold read_file. subst w1. cbn [abs files set_files].
    unfold resolve in A. rewrite A. exact L.
  - intros k NI. subst w1. cbn [files set_files].
    apply plan_put_other. intros f I E. apply NI. rewrite <- E.
    now apply list_elem_of_fmap_2.
  - rewrite (part000_main_clean fl g w1).
    + f_equal. subst w1. unfold set_files.
      cbn [files refused stuck wfaults wd abs].
      f_equal. apply (plan_put_twice Part000.defByte (Part000.name g)
                        (Part000.once g) w (part000_plan g) (files w)).
    + rewrite <- C. now apply part000_checkFlags_same_wd.
    + exact W.
    + intros f I. destruct (OK f I) as (fn & A & D).
      exists fn. split; [exact A|].
      apply (denied_mono w); [now unfold same_env| |exact D].
      subst w1. cbn [files set_files]. intros [c L].
      destruct (decide (Some fn ∈ resolve w <$> part000_plan g)) as [IN|NI].
      * apply list_elem_of_fmap in IN as (f0 & E0 & I0).
        destruct (plan_put_last Part000.defByte (Part000.name g)
                    (Part000.once g) w (part000_plan g) (files w) f0 fn I0
                    (eq_sym E0)) as (f' & _ & _ & L').
        rewrite L'. eauto.
      * rewrite plan_put_other; [eauto|].
        intros f0 I0 E0. apply NI. rewrite <- E0.
        now apply list_elem_of_fmap_2.
Qed.

Lemma part000_run_repeats_witness :
  Part000.main no_flags (Part000.main no_flags w_taken).2
  = (0, (Part000.main no_flags w_taken).2).
Proof.
  assert (F : part000_flags no_flags) by (split; reflexivity).
  assert (OK : forall f, f ∈ part000_plan h_plain ->
            exists fn, resolve w_taken f = Some fn /\ denied w_taken fn = false).
  { intros f _. exists (in_dir "/w" (ToLower (fs_name f))).
    split; reflexivity. }
  pose proof (part000_run_overwrites_and_repeats no_flags h_plain w_taken F
                eq_refl eq_refl OK) as (R1 & _ & _ & R2).
  rewrite R1. exact R2.
Defined.

Lemma part000_plan_length (g : Part000.globals) :
  length (part000_plan g)
  = if (len (Part000.name g) =? 0)%nat then 8%nat else 10%nat.
Proof.
  unfold part000_plan. rewrite length_app.
  now destruct (len (Part000.name g) =? 0)%nat.
Qed.

(** X16. A run of [src/unnamed/part_000] that ends with status 0 and whose
    files resolve to paths that differ from each other has added, when none
    of them was there, eight files without a module name and ten with one;
    with a module name n the export header n.h includes n/pub_includes.h,
    and the source file n.c is the single directive that includes
    n/priv_includes.h. *)
Theorem part000_run_adds_files (fl : flags) (g : Part000.globals)
    (w w' : world) :
  part000_flags fl ->
  Part000.checkFlags fl w = inr g ->
  Part000.main fl w = (0, w') ->
  NoDup (resolve w <$> part000_plan g) ->
  ((forall f, f ∈ part000_plan g -> read_file w (fs_name f) = None) ->
   size (files w')
   = (size (files w)
      + if (len (Part000.name g) =? 0)%nat then 8 else 10)%nat) /\
  (Part000.name g <> "" ->
   read_file w' (Part000.name g +:+ ".h")
   = Some (inc_text Part000.defByte (Part000.name g) (Part000.once g)
             (Part000.name g +:+ ".h") ["pub_includes.h"]) /\
   read_file w' (Part000.name g +:+ ".c")
   = Some (unlines [include_directive
                      (Part000.name g +:+ "/" +:+ "priv_includes.h")])).
Proof.
  intros _ C H ND. apply part000_exit_zero in H as (g' & C' & R).
  rewrite C in C'. injection C' as <-.
  split.
  - intros FR.
    apply (run_plan_Ok_files Part000.fileCreate Part000.defByte
             (Part000.name g) (Part000.once g) Part000_creating) in R
      as (F & _ & RS).
    rewrite F, <- part000_plan_length.
    apply plan_put_size; [exact ND|].
    intros f I. destruct (RS f I) as (fn & A & _).
    exists fn. split; [exact A|].
    specialize (FR f I). unfold read_file in FR. unfold resolve in A.
    now rewrite A in FR.
  - intros NN.
    assert (L : (len (Part000.name g) =? 0)%nat = false).
    { destruct (len (Part000.name g) =? 0)%nat eqn:E; [|reflexivity].
      now apply len_zero in E. }
    pose proof (fun f => run_plan_reads Part000.fileCreate Part000.defByte
                           (Part000.name g) (Part000.once g) Part000_creating
                           (part000_plan g) tt w w' f R ND) as RD.
    split.
    + apply (RD (FileSpec Include (Part000.name g +:+ ".h") ["pub_includes.h"])).
      unfold part000_plan. rewrite L. apply elem_of_app. right. left.
    + rewrite <- (includeName_qualified (Part000.name g) "priv_includes.h" NN).
      apply (RD (FileSpec Source (Part000.name g +:+ ".c") ["priv_includes.h"])).
      unfold part000_plan. rewrite L. apply elem_of_app. right. right. left.
Qed.

Lemma part000_run_adds_files_witness :
  size (files (Part000.main flags_foo (dir_world "/w" ∅)).2) = 10%nat /\
  read_file (Part000.main flags_foo (dir_world "/w" ∅)).2 "foo.c"
  = Some (unlines [include_directive "foo/priv_includes.h"]).
Proof.
  assert (F : part000_flags flags_foo) by (split; reflexivity).
  assert (C : Part000.checkFlags flags_foo (dir_world "/w" ∅)
              = inr (Part000.parsed flags_foo)) by reflexivity.
  assert (H : Part000.main flags_foo (dir_world "/w" ∅)
              = (0, (Part000.main flags_foo (dir_world "/w" ∅)).2))
    by (vm_compute; reflexivity).
  assert (ND : NoDup (resolve (dir_world "/w" ∅)
                        <$> part000_plan (Part000.parsed flags_foo)))
    by (refine (bool_decide_unpack _ _); vm_compute; reflexivity).
  pose proof (part000_run_adds_files flags_foo (Part000.parsed flags_foo)
                (dir_world "/w" ∅) _ F C H ND) as [SZ RD].
  split.
  - rewrite SZ; [reflexivity|]. intros f _. reflexivity.
  - assert (NN : Part000.name (Part000.parsed flags_foo) <> "")
      by discriminate.
    apply RD in NN as [_ T]. vm_compute in T. vm_compute. exact T.
Defined.

(** ** The modes of [src/main.go] *)

Lemma tier_pub_in_plan (g : Main.globals) (f : file_spec) :
  Main.pfx g = "pub" -> f ∈ tier "pub" true -> f ∈ main_plan g.
Proof.
  intros P I. unfold main_plan. rewrite P. apply elem_of_app. now left.
Qed.

(** X17. With -pub and without -add, a run of [src/main.go] that ends with
    status 0 has added the three files of the public tier and, when there is
    a module name, its export header, which includes pub_inlines.h; it has
    added no file of a private tier and no source file. *)
Theorem run_pub_only (fl : flags) (w w' : world) :
  f_add fl = None -> f_pub fl = Some true ->
  Main.main fl w = (0, w') ->
  exists g,
    Main.checkFlags fl w = inr g /\
    let text := inc_text Main.defByte (Main.name g) (Main.once g) in
    size (files w') = (size (files w) + 3 + named (Main.name g))%nat /\
    read_file w' "pub_consts.h" = Some (text "pub_consts.h" []) /\
    read_file w' "pub_types.h" = Some (text "pub_types.h" ["pub_consts.h"]) /\
    read_file w' "pub_inlines.h"
      = Some (text "pub_inlines.h" ["pub_types.h"]) /\
    (Main.name g <> "" ->
     read_file w' (Main.name g +:+ ".h")
     = Some (text (Main.name g +:+ ".h") ["pub_inlines.h"])).
Proof.
  intros A P H. apply main_exit_zero_files in H as (g & C & RD & _ & SZ).
  exists g. split; [exact C|].
  apply (checkFlags_inr fl w g) in C as (PF & _ & X & _ & PB & _).
  rewrite A in PF, X. rewrite P in PB. cbn in PF, X, PB.
  cbv zeta. split; [|split; [|split; [|split]]].
  - rewrite SZ. unfold main_plan_length. rewrite X, PB. lia.
  - apply (RD (FileSpec Include "pub_consts.h" [])), tier_pub_in_plan;
      [exact PF | repeat constructor].
  - apply (RD (FileSpec Include "pub_types.h" ["pub_consts.h"])),
      tier_pub_in_plan; [exact PF | repeat constructor].
  - apply (RD (FileSpec Include "pub_inlines.h" ["pub_types.h"])),
      tier_pub_in_plan; [exact PF | repeat constructor].
  - intros NN.
    apply (RD (FileSpec Include (Main.name g +:+ ".h") ["pub_inlines.h"])).
    unfold main_plan. rewrite X, PB, PF.
    assert (L : (0 <? len (Main.name g))%nat = true).
    { destruct (Main.name g); [contradiction|reflexivity]. }
    rewrite L. apply elem_of_app. right. apply elem_of_app. left. left.
Qed.

Lemma run_pub_only_witness :
  size (files (Main.main (set_pub (Some true) flags_foo)
                 (dir_world "/w" ∅)).2) = 4%nat.
Proof.
  destruct (run_pub_only (set_pub (Some true) flags_foo) (dir_world "/w" ∅)
              (Main.main (set_pub (Some true) flags_foo) (dir_world "/w" ∅)).2
              eq_refl eq_refl)
    as (g & C & SZ & _).
  - vm_compute. reflexivity.
  - injection C as <-. exact SZ.
Defined.

(** X18. Without -add and -pub, a run of [src/main.go] that ends with
    status 0 has added six files with no module name and eight with one;
    with a module name n the export header n.h includes n/pub_inlines.h and
    the source file n.c is the single directive that includes
    n/priv_inlines.h. *)
Theorem run_full (fl : flags) (w w' : world) :
  f_add fl = None -> default false (f_pub fl) = false ->
  Main.main fl w = (0, w') ->
  exists g,
    Main.checkFlags fl w = inr g /\
    size (files w') = (size (files w) + 6 + 2 * named (Main.name g))%nat /\
    (Main.name g <> "" ->
     read_file w' (Main.name g +:+ ".h")
     = Some (unlines
               (guarded_lines (Main.once g)
                  (Main.defName g (Main.name g +:+ ".h"))
                  [Main.name g +:+ "/" +:+ "pub_inlines.h"])) /\
     read_file w' (Main.name g +:+ ".c")
     = Some (unlines [include_directive
                        (Main.name g +:+ "/" +:+ "priv_inlines.h")])).
Proof.
  intros A P H. apply main_exit_zero_files in H as (g & C & RD & _ & SZ).
  exists g. split; [exact C|].
  apply (checkFlags_inr fl w g) in C as (PF & _ & X & _ & PB & _).
  rewrite A in PF, X. rewrite P in PB. cbn in PF, X.
  split.
  - rewrite SZ. unfold main_plan_length. rewrite X, PB. lia.
  - intros NN.
    assert (L : (0 <? len (Main.name g))%nat = true).
    { destruct (Main.name g); [contradiction|reflexivity]. }
    pose proof (includeName_qualified (Main.name g) "pub_inlines.h" NN) as Q1.
    pose proof (includeName_qualified (Main.name g) "priv_inlines.h" NN) as Q2.
    split.
    + rewrite <- Q1. unfold Main.defName. rewrite defName_guard.
      apply (RD (FileSpec Include (Main.name g +:+ ".h") ["pub_inlines.h"])).
      unfold main_plan. rewrite X, PB, PF, L.
      apply elem_of_app. right. apply elem_of_app. left. left.
    + rewrite <- Q2.
      apply (RD (FileSpec Source (Main.name g +:+ ".c") ["priv_inlines.h"])).
      unfold main_plan. rewrite X, PB, L.
      apply elem_of_app. right. apply elem_of_app. right.
      apply elem_of_app. right. left.
Qed.

Lemma run_full_witness :
  size (files (Main.main no_flags (dir_world "/w" ∅)).2) = 6%nat.
Proof.
  destruct (run_full no_flags (dir_world "/w" ∅)
              (Main.main no_flags (dir_world "/w" ∅)).2 eq_refl eq_refl)
    as (g & C & SZ & _).
  - vm_compute. reflexivity.
  - injection C as <-. exact SZ.
Defined.
